(** * Cronos node utilities: ABI-style encoding, decoding and unit conversion

    A shallow embedding of [nodes/Cronos/utils/index.ts], of the
    [encodeFunction] and [decodeData] actions of the utility resource, and of
    the string decoders inlined in the NFT and token actions, together with
    the properties of these functions.

    JavaScript strings are lists of characters; the characters are those of
    the Latin-1 range, which covers every hexadecimal and decimal text the
    utilities work on.  A call that throws is [None]. *)

From Stdlib Require Import String Ascii ZArith List Bool Lia.
Import ListNotations.

Local Open Scope Z_scope.

(** ** The JavaScript runtime the utilities are written against *)

Module JS.

Definition str := list ascii.

Definition lit (s : string) : str := list_ascii_of_string s.
Arguments lit s%_string.

Definition len (s : str) : Z := Z.of_nat (length s).

Definition code (c : ascii) : Z := Z.of_nat (nat_of_ascii c).

Fixpoint str_eqb (a b : str) : bool :=
  match a, b with
  | [], [] => true
  | x :: a', y :: b' => Ascii.eqb x y && str_eqb a' b'
  | _, _ => false
  end.

(** [s.startsWith(p)] *)
Fixpoint startsWith (p s : str) : bool :=
  match p, s with
  | [], _ => true
  | x :: p', y :: s' => Ascii.eqb x y && startsWith p' s'
  | _ :: _, [] => false
  end.

(** [s.replace(p, r)] with a string pattern: only the first occurrence. *)
Fixpoint replaceFirst (p r s : str) : str :=
  if startsWith p s then r ++ skipn (length p) s
  else match s with
       | [] => []
       | c :: s' => c :: replaceFirst p r s'
       end.

(** Relative index of [slice]: negative counts from the end, then clamped. *)
Definition relIndex (n i : Z) : Z :=
  if i <? 0 then Z.max (n + i) 0 else Z.min i n.

(** [s.slice(a, b)] *)
Definition slice (s : str) (a b : Z) : str :=
  let from := relIndex (len s) a in
  let to := relIndex (len s) b in
  firstn (Z.to_nat (to - from)) (skipn (Z.to_nat from) s).

(** [s.slice(a)] *)
Definition sliceFrom (s : str) (a : Z) : str :=
  skipn (Z.to_nat (relIndex (len s) a)) s.

(** [s.padStart(n, c)] and [s.padEnd(n, c)] with a one-character filler. *)
Definition padStart (n : Z) (c : ascii) (s : str) : str :=
  repeat c (Z.to_nat (n - len s)) ++ s.

Definition padEnd (n : Z) (c : ascii) (s : str) : str :=
  s ++ repeat c (Z.to_nat (n - len s)).

(** [toLowerCase] on one character: A-Z, and the Latin-1 capitals. *)
Definition lowerChar (c : ascii) : ascii :=
  let n := code c in
  if ((65 <=? n) && (n <=? 90)) || ((192 <=? n) && (n <=? 222) && negb (n =? 215))
  then ascii_of_nat (nat_of_ascii c + 32)
  else c.

Definition toLowerCase (s : str) : str := map lowerChar s.

(** White space and line terminators, as [trim] and the numeric parsers see
    them. *)
Definition isSpace (c : ascii) : bool :=
  let n := code c in
  ((9 <=? n) && (n <=? 13)) || (n =? 32) || (n =? 160).

Fixpoint trimStart (s : str) : str :=
  match s with
  | c :: s' => if isSpace c then trimStart s' else s
  | [] => []
  end.

Definition trimEnd (s : str) : str := rev (trimStart (rev s)).

Definition trim (s : str) : str := trimEnd (trimStart s).

(** [s.split('.')]: the pieces between the dots, at least one piece. *)
Fixpoint splitOn (sep : ascii) (s : str) : list str :=
  match s with
  | [] => [[]]
  | c :: s' =>
      if Ascii.eqb c sep then [] :: splitOn sep s'
      else match splitOn sep s' with
           | p :: ps => (c :: p) :: ps
           | [] => [[c]]
           end
  end.

(** [s.replace(/0+$/, '')] *)
Fixpoint dropZeros (s : str) : str :=
  match s with
  | c :: s' => if Ascii.eqb c "0"%char then dropZeros s' else s
  | [] => []
  end.

Definition stripTrailingZeros (s : str) : str := rev (dropZeros (rev s)).

(** [s.replace(/\0/g, '')] *)
Definition dropNul (s : str) : str :=
  filter (fun c => negb (code c =? 0)) s.

(** *** Digits *)

Definition digitChar (d : Z) : ascii :=
  if d <? 10 then ascii_of_nat (Z.to_nat (48 + d))
  else ascii_of_nat (Z.to_nat (87 + d)).

(** The value of a digit character in the given radix; letters in either
    case. *)
Definition digitVal (radix : Z) (c : ascii) : option Z :=
  let n := code c in
  let v := if (48 <=? n) && (n <=? 57) then n - 48
           else if (97 <=? n) && (n <=? 122) then n - 87
           else if (65 <=? n) && (n <=? 90) then n - 55
           else radix in
  if v <? radix then Some v else None.

Definition isHexDigit (c : ascii) : bool :=
  match digitVal 16 c with Some _ => true | None => false end.

Definition isDecDigit (c : ascii) : bool :=
  match digitVal 10 c with Some _ => true | None => false end.

Fixpoint digitsFrom (radix : Z) (s : str) (acc : Z) : option Z :=
  match s with
  | [] => Some acc
  | c :: s' =>
      match digitVal radix c with
      | Some d => digitsFrom radix s' (acc * radix + d)
      | None => None
      end
  end.

(** One digit or more, nothing else. *)
Definition parseDigits (radix : Z) (s : str) : option Z :=
  match s with
  | [] => None
  | _ => digitsFrom radix s 0
  end.

(** The digits of a non-negative integer, most significant first; [fuel]
    bounds the number of digits after the first. *)
Fixpoint digitsFuel (fuel : nat) (radix n : Z) : str :=
  match fuel with
  | O => [digitChar (n mod radix)]
  | S f =>
      if n <? radix then [digitChar n]
      else digitsFuel f radix (n / radix) ++ [digitChar (n mod radix)]
  end.

Definition toDigits (radix n : Z) : str :=
  digitsFuel (Z.to_nat (Z.log2 n)) radix n.

(** *** BigInt *)

(** [BigInt(s)] on a string: white space trimmed, the empty text is zero, a
    radix prefix takes no sign, decimal digits take an optional sign;
    anything else is a SyntaxError. *)
Definition BigInt_ofString (s : str) : option Z :=
  let t := trim s in
  match t with
  | [] => Some 0
  | _ =>
      if startsWith (lit "0x") t || startsWith (lit "0X") t
      then parseDigits 16 (skipn 2 t)
      else if startsWith (lit "0o") t || startsWith (lit "0O") t
      then parseDigits 8 (skipn 2 t)
      else if startsWith (lit "0b") t || startsWith (lit "0B") t
      then parseDigits 2 (skipn 2 t)
      else if startsWith (lit "-") t
      then option_map Z.opp (parseDigits 10 (skipn 1 t))
      else if startsWith (lit "+") t
      then parseDigits 10 (skipn 1 t)
      else parseDigits 10 t
  end.

(** [z.toString(radix)] on a BigInt. *)
Definition BigInt_toString (radix z : Z) : str :=
  if z <? 0 then "-"%char :: toDigits radix (- z) else toDigits radix z.

(** *** Numbers *)

(** A Number is a binary64 value.  Rounding a positive integer to the nearest
    one keeps 53 significant bits, ties to even. *)
Definition roundBinary64 (z : Z) : Z :=
  let e := Z.log2 z - 52 in
  if e <=? 0 then z
  else
    let q := z / 2 ^ e in
    let r := z mod 2 ^ e in
    let half := 2 ^ (e - 1) in
    let q' := if r <? half then q
              else if half <? r then q + 1
              else if Z.even q then q else q + 1 in
    q' * 2 ^ e.

(** An integer is a binary64 value when rounding leaves it alone and it is
    below 2^1024. *)
Definition isBinary64 (z : Z) : bool :=
  (roundBinary64 z =? z) && (z <? 2 ^ 1024).

(** [10 ** d] for a non-negative integer [d]: the nearest Number, and
    Infinity ([None]) when that is out of range.  The language leaves the
    last bit of a power to the engine; whatever it does, the result is a
    binary64 value. *)
Definition pow10 (d : Z) : option Z :=
  let r := roundBinary64 (10 ^ d) in
  if r <? 2 ^ 1024 then Some r else None.

(** [parseInt(s, 16)]: leading white space, a sign, a 0x prefix, then the
    longest run of hexadecimal digits; NaN ([None]) when there is none.  The
    integer read is kept exact: the callers compare it with 1, with 128, or
    use it as a [slice] index, where the rounding of a Number beyond 2^53
    changes nothing. *)
Fixpoint hexRun (s : str) (acc : Z) : Z :=
  match s with
  | c :: s' =>
      match digitVal 16 c with
      | Some d => hexRun s' (acc * 16 + d)
      | None => acc
      end
  | [] => acc
  end.

Definition startsWithDigit (radix : Z) (s : str) : bool :=
  match s with
  | c :: _ => match digitVal radix c with Some _ => true | None => false end
  | [] => false
  end.

Definition parseInt16 (s : str) : option Z :=
  let t := trimStart s in
  let neg := startsWith (lit "-") t in
  let t1 := if neg || startsWith (lit "+") t then skipn 1 t else t in
  let t2 := if startsWith (lit "0x") t1 || startsWith (lit "0X") t1
            then skipn 2 t1 else t1 in
  if startsWithDigit 16 t2
  then Some (if neg then - hexRun t2 0 else hexRun t2 0)
  else None.

(** A NaN used as a [slice] index counts as 0. *)
Definition toIndex (n : option Z) : Z :=
  match n with Some z => z | None => 0 end.

(** Sequencing two calls, the second on the result of the first. *)
Definition andThen {A B : Type} (x : option A) (f : A -> option B) : option B :=
  match x with Some a => f a | None => None end.

(** *** Values *)

(** The values a parameter can hold: a string, an integral Number, a BigInt
    or a boolean. *)
Inductive value :=
| VStr (s : str)
| VNum (n : Z)
| VBig (n : Z)
| VBool (b : bool).

(** Truthiness, as a conditional sees it. *)
Definition truthy (v : value) : bool :=
  match v with
  | VStr s => match s with [] => false | _ => true end
  | VNum n => negb (n =? 0)
  | VBig n => negb (n =? 0)
  | VBool b => b
  end.

(** [v.toString()]; an integral Number below 10^21 prints as its digits. *)
Definition toString (v : value) : str :=
  match v with
  | VStr s => s
  | VNum n => BigInt_toString 10 n
  | VBig n => BigInt_toString 10 n
  | VBool b => if b then lit "true" else lit "false"
  end.

(** [BigInt(v)] *)
Definition BigInt (v : value) : option Z :=
  match v with
  | VStr s => BigInt_ofString s
  | VNum n => Some n
  | VBig n => Some n
  | VBool b => Some (if b then 1 else 0)
  end.

(** [v === s] against a string. *)
Definition strictEqStr (v : value) (s : str) : bool :=
  match v with
  | VStr t => str_eqb t s
  | _ => false
  end.

End JS.

(** ** nodes/Cronos/utils/index.ts *)

Module Utils.
Import JS.

Definition CRO_DECIMALS : Z := 18.

(** [BigInt(10 ** decimals)]: a RangeError when the power is a fraction or
    Infinity. *)
Definition BigInt_pow10 (decimals : Z) : option Z :=
  if decimals <? 0 then None else pow10 decimals.

(** The body of [weiToCro] once [weiBigInt] and [divisor] are known. *)
Definition weiToCroWith (divisor weiBigInt decimals : Z) : str :=
  let wholePart := Z.quot weiBigInt divisor in
  let fractionalPart := Z.rem weiBigInt divisor in
  if fractionalPart =? 0 then BigInt_toString 10 wholePart
  else
    let fractionalStr := padStart decimals "0" (BigInt_toString 10 fractionalPart) in
    let trimmedFractional := stripTrailingZeros fractionalStr in
    BigInt_toString 10 wholePart ++ lit "." ++ trimmedFractional.

Definition weiToCro (wei : value) (decimals : Z) : option str :=
  match (match wei with
         | VStr s => BigInt_ofString s
         | VBig n => Some n
         | _ => None
         end) with
  | None => None
  | Some weiBigInt =>
      match BigInt_pow10 decimals with
      | None => None
      | Some divisor => Some (weiToCroWith divisor weiBigInt decimals)
      end
  end.

Definition croToWei (cro : value) (decimals : Z) : option str :=
  let croStr := toString cro in
  let parts := splitOn "." croStr in
  let wholePart := nth 0 parts [] in
  let fractionalPart := nth 1 parts [] in
  let paddedFractional := slice (padEnd decimals "0" fractionalPart) 0 decimals in
  let combined := wholePart ++ paddedFractional in
  option_map (BigInt_toString 10) (BigInt_ofString combined).

Definition hexToDecimal (hex : str) : option str :=
  match hex with
  | [] => Some (lit "0")
  | _ =>
      if str_eqb hex (lit "0x") then Some (lit "0")
      else option_map (BigInt_toString 10) (BigInt_ofString hex)
  end.

Definition decimalToHex (decimal : value) : option str :=
  option_map (fun bigIntValue => lit "0x" ++ BigInt_toString 16 bigIntValue)
             (BigInt decimal).

Definition padAddress (address : str) : str :=
  let cleanAddress := replaceFirst (lit "0x") [] (toLowerCase address) in
  lit "0x" ++ padStart 64 "0" cleanAddress.

Definition padNumber (num : value) : option str :=
  option_map (fun n => lit "0x" ++ padStart 64 "0" (BigInt_toString 16 n))
             (BigInt num).

Record param := { ptype : str; pvalue : value }.

(** What one turn of the loop of [encodeFunctionCall] appends to [data]. *)
Definition encodeParam (p : param) : option str :=
  if str_eqb (ptype p) (lit "address") then
    Some (sliceFrom (padAddress (toString (pvalue p))) 2)
  else if str_eqb (ptype p) (lit "uint256") || str_eqb (ptype p) (lit "uint")
          || str_eqb (ptype p) (lit "int256") then
    option_map (fun w => sliceFrom w 2) (padNumber (pvalue p))
  else if str_eqb (ptype p) (lit "bool") then
    option_map (fun w => sliceFrom w 2)
               (padNumber (VNum (if truthy (pvalue p) then 1 else 0)))
  else if str_eqb (ptype p) (lit "bytes32") then
    let hexValue := replaceFirst (lit "0x") [] (toString (pvalue p)) in
    Some (padEnd 64 "0" hexValue)
  else Some [].

Fixpoint encodeLoop (params : list param) (data : str) : option str :=
  match params with
  | [] => Some data
  | p :: rest =>
      match encodeParam p with
      | Some w => encodeLoop rest (data ++ w)
      | None => None
      end
  end.

Definition encodeFunctionCall (functionSignature : str) (params : list param)
  : option str :=
  encodeLoop params functionSignature.

Definition decodeUint256 (hex : str) : option str :=
  match hex with
  | [] => Some (lit "0")
  | _ =>
      if str_eqb hex (lit "0x") then Some (lit "0")
      else option_map (BigInt_toString 10) (BigInt_ofString hex)
  end.

Definition decodeAddress (hex : str) : str :=
  match hex with
  | [] => lit "0x0000000000000000000000000000000000000000"
  | _ =>
      if str_eqb hex (lit "0x") then lit "0x0000000000000000000000000000000000000000"
      else
        let cleanHex := replaceFirst (lit "0x") [] hex in
        lit "0x" ++ toLowerCase (sliceFrom cleanHex (-40))
  end.




(** [/^0x[a-fA-F0-9]{n}$/.test(s)] *)
Definition isPrefixedHex (n : Z) (s : str) : bool :=
  startsWith (lit "0x") s && (len s =? n + 2) && forallb isHexDigit (skipn 2 s).

Definition isValidAddress (address : str) : bool := isPrefixedHex 40 address.

Definition isValidTxHash (hash : str) : bool := isPrefixedHex 64 hash.

(** [blockNumber] is a string or a number. *)
Definition formatBlockNumber (blockNumber : value) : option str :=
  match blockNumber with
  | VStr s =>
      if str_eqb s (lit "latest") || str_eqb s (lit "earliest")
         || str_eqb s (lit "pending") then Some s
      else if startsWith (lit "0x") s then Some s
      else decimalToHex blockNumber
  | _ => decimalToHex blockNumber
  end.

(** The value [parseLogData] pushes for a chunk of the given type. *)
Definition parseLogValue (type chunk : str) : option str :=
  if str_eqb type (lit "address") then Some (decodeAddress (lit "0x" ++ chunk))
  else if startsWith (lit "uint") type || startsWith (lit "int") type then
    decodeUint256 (lit "0x" ++ chunk)
  else Some (lit "0x" ++ chunk).

(** The loop of [parseLogData] from index [i] on, [types] being the types
    not yet visited; it stops at the first empty chunk. *)
Fixpoint parseLogLoop (cleanData : str) (types : list str) (i : Z)
  : option (list str) :=
  match types with
  | [] => Some []
  | type :: rest =>
      let chunk := slice cleanData (i * 64) ((i + 1) * 64) in
      match chunk with
      | [] => Some []
      | _ =>
          match parseLogValue type chunk, parseLogLoop cleanData rest (i + 1) with
          | Some v, Some vs => Some (v :: vs)
          | _, _ => None
          end
      end
  end.

Definition parseLogData (data : str) (types : list str) : option (list str) :=
  match data with
  | [] => Some []
  | _ =>
      if str_eqb data (lit "0x") then Some []
      else parseLogLoop (replaceFirst (lit "0x") [] data) types 0
  end.

End Utils.

(** ** The utility actions: [encodeFunction] and [decodeData] *)

Module Utility.
Import JS Utils.

(** What one turn of the loop of [encodeFunction] appends to [encodedData];
    [n] is [params.length].  The parameters are parsed JSON, so a value need
    not be a string: a string method called on anything else throws. *)
Definition encodeParam (n : Z) (p : param) : option str :=
  if str_eqb (ptype p) (lit "address") then
    if negb (isValidAddress (toString (pvalue p))) then None
    else match pvalue p with
         | VStr s => Some (padStart 64 "0" (replaceFirst (lit "0x") [] (toLowerCase s)))
         | _ => None
         end
  else if str_eqb (ptype p) (lit "uint256") || startsWith (lit "uint") (ptype p)
          || startsWith (lit "int") (ptype p) then
    option_map (fun bigIntValue => padStart 64 "0" (BigInt_toString 16 bigIntValue))
               (BigInt (pvalue p))
  else if str_eqb (ptype p) (lit "bool") then
    let boolValue :=
      if strictEqStr (pvalue p) (lit "true") || strictEqStr (pvalue p) (lit "1")
      then lit "1" else lit "0" in
    Some (padStart 64 "0" boolValue)
  else if str_eqb (ptype p) (lit "bytes32") then
    match pvalue p with
    | VStr s => Some (padEnd 64 "0" (replaceFirst (lit "0x") [] s))
    | _ => None
    end
  else if str_eqb (ptype p) (lit "bytes") then
    match pvalue p with
    | VStr _ => Some (padStart 64 "0" (BigInt_toString 16 (n * 32)))
    | _ => None
    end
  else if str_eqb (ptype p) (lit "string") then
    Some (padStart 64 "0" (BigInt_toString 16 (n * 32)))
  else Some [].

Fixpoint encodeLoop (n : Z) (params : list param) (encodedData : str)
  : option str :=
  match params with
  | [] => Some encodedData
  | p :: rest =>
      match encodeParam n p with
      | Some w => encodeLoop n rest (encodedData ++ w)
      | None => None
      end
  end.

(** The [encodedData] field of the action's result. *)
Definition encodeFunction (functionSignature : str) (params : list param)
  : option str :=
  encodeLoop (Z.of_nat (length params)) params functionSignature.

(** [paramData.match(/.{1,64}/g) || []]: runs of up to 64 characters; the dot
    does not match a line terminator, which ends the run and is skipped.
    [cur] is the run being read, latest character first. *)
Definition isLineTerminator (c : ascii) : bool :=
  (code c =? 10) || (code c =? 13).

Definition flush (cur : str) (k : list str) : list str :=
  match cur with [] => k | _ => rev cur :: k end.

Fixpoint matchChunks (s cur : str) : list str :=
  match s with
  | [] => flush cur []
  | c :: s' =>
      if isLineTerminator c then flush cur (matchChunks s' [])
      else if length cur =? 63
      then rev (c :: cur) :: matchChunks s' []
      else matchChunks s' (c :: cur)
  end%nat.

Record decoded := { dtype : str; raw : str; dvalue : str }.

(** One turn of the decoding loop; [type] is [typeArray[i] || 'unknown']. *)
Definition decodeChunk (typeArray : list str) (i : nat) (chunk0 : str)
  : option decoded :=
  let chunk := padEnd 64 "0" chunk0 in
  let type := match nth i typeArray [] with
              | [] => lit "unknown"
              | t => t
              end in
  let value :=
    if str_eqb type (lit "address") then Some (decodeAddress (lit "0x" ++ chunk))
    else if startsWith (lit "uint") type || startsWith (lit "int") type then
      decodeUint256 (lit "0x" ++ chunk)
    else if str_eqb type (lit "bool") then
      Some (match parseInt16 chunk with
            | Some 1 => lit "true"
            | _ => lit "false"
            end)
    else if str_eqb type (lit "bytes32") then Some (lit "0x" ++ chunk)
    else decodeUint256 (lit "0x" ++ chunk) in
  option_map (fun v => {| dtype := type; raw := lit "0x" ++ chunk; dvalue := v |})
             value.

Fixpoint decodeLoop (typeArray : list str) (chunks : list str) (i : nat)
  : option (list decoded) :=
  match chunks with
  | [] => Some []
  | c :: rest =>
      match decodeChunk typeArray i c, decodeLoop typeArray rest (S i) with
      | Some d, Some ds => Some (d :: ds)
      | _, _ => None
      end
  end.

(** The text after the selector that [decodeData] cuts off: the first eight
    characters, when there are that many. *)
Definition paramData (data : str) : str :=
  let cleanData := replaceFirst (lit "0x") [] data in
  if 8 <=? len cleanData then sliceFrom cleanData 8 else cleanData.

(** The [decodedValues] field of the action's result. *)
Definition decodeData (data : str) (typeArray : list str)
  : option (list decoded) :=
  decodeLoop typeArray (matchChunks (paramData data) []) 0.

End Utility.

(** ** The string decoders of the NFT and token actions *)

Module Nfts.
Import JS.

(** [Buffer.from(s, 'hex')]: a byte per pair of hexadecimal digits, up to the
    first pair that is not one. *)
Fixpoint hexBytes (s : str) : list Z :=
  match s with
  | a :: b :: rest =>
      match digitVal 16 a, digitVal 16 b with
      | Some x, Some y => (x * 16 + y) :: hexBytes rest
      | _, _ => []
      end
  | _ => []
  end.

Section Decoders.

(** [buffer.toString('utf8')] belongs to the platform and is kept abstract. *)
Variable utf8 : list Z -> str.

(** The token-URI decode of [getNFTMetadata], from the [eth_call] result to
    [tokenURI] (which starts out empty). *)
Definition decodeTokenURI (result : str) : str :=
  if negb (str_eqb result []) && negb (str_eqb result (lit "0x"))
     && (2 <? len result) then
    let hexStr := replaceFirst (lit "0x") [] result in
    if 128 <=? len hexStr then
      let offset := option_map (fun n => n * 2) (parseInt16 (slice hexStr 0 64)) in
      let length :=
        parseInt16 (slice hexStr (toIndex offset)
                          (toIndex (option_map (fun o => o + 64) offset))) in
      let from := option_map (fun o => o + 64) offset in
      let to := match offset, length with
                | Some o, Some l => Some (o + 64 + l * 2)
                | _, _ => None
                end in
      let uriHex := slice hexStr (toIndex from) (toIndex to) in
      utf8 (hexBytes uriHex)
    else []
  else [].

(** The name and symbol decode of the NFT and token actions, from the
    [eth_call] result to the text (which starts out as [dflt]). *)
Definition decodeName (dflt result : str) : str :=
  if negb (str_eqb result []) && negb (str_eqb result (lit "0x"))
     && (2 <? len result) then
    let hexStr := replaceFirst (lit "0x") [] result in
    if 128 <=? len hexStr then
      let length := parseInt16 (slice hexStr 64 128) in
      let nameHex :=
        slice hexStr 128 (toIndex (option_map (fun l => 128 + l * 2) length)) in
      dropNul (utf8 (hexBytes nameHex))
    else dflt
  else dflt.

End Decoders.

End Nfts.

(** ** What the functions are meant to compute *)

Module Props.
Import JS Utils.

Definition zeroAddress : str := lit "0x0000000000000000000000000000000000000000".

Definition isBlockTag (s : str) : bool :=
  str_eqb s (lit "latest") || str_eqb s (lit "earliest") || str_eqb s (lit "pending").

(** The exact conversion of [w] Wei at [d] decimals: the whole part
    [w / 10^d], and the fractional part [w mod 10^d] on exactly [d] digits
    with the trailing zeros removed; the whole part alone when there is no
    fraction. *)
Definition weiToHuman (w d : Z) : str :=
  let whole := w / 10 ^ d in
  let frac := w mod 10 ^ d in
  if frac =? 0 then toDigits 10 whole
  else toDigits 10 whole ++ lit "." ++ stripTrailingZeros (padStart d "0" (toDigits 10 frac)).

(** *** Static parameters *)

(** The 64-character word of a non-negative integer. *)
Definition word (n : Z) : str := padStart 64 "0" (toDigits 16 n).

(** The integer types [encodeFunctionCall] knows, and those the
    [encodeFunction] action knows. *)
Definition isCallInt (t : str) : bool :=
  str_eqb t (lit "uint256") || str_eqb t (lit "uint") || str_eqb t (lit "int256").

Definition isActionInt (t : str) : bool :=
  startsWith (lit "uint") t || startsWith (lit "int") t.

(** A bytes32 value in range: at most 64 hexadecimal digits, with or without
    the 0x prefix. *)
Definition isBytes32 (s : str) : bool :=
  let h := if startsWith (lit "0x") s then skipn 2 s else s in
  forallb isHexDigit h && (len h <=? 64).

(** A parameter of a static type with a value in range: a valid address, an
    integer from 0 to 2^256 - 1, any boolean, a bytes32 text.  [isInt] tells
    which type names are integer types. *)
Definition inRange (isInt : str -> bool) (p : param) : bool :=
  if str_eqb (ptype p) (lit "address") then
    match pvalue p with VStr s => isValidAddress s | _ => false end
  else if isInt (ptype p) then
    match BigInt (pvalue p) with
    | Some n => (0 <=? n) && (n <? 2 ^ 256)
    | None => false
    end
  else if str_eqb (ptype p) (lit "bool") then true
  else if str_eqb (ptype p) (lit "bytes32") then
    match pvalue p with VStr s => isBytes32 s | _ => false end
  else false.

(** One word of 64 hexadecimal digits per parameter, in order, after the
    selector. *)
Definition wordPerParam (enc : param -> option str) (sel : str)
           (params : list param) (out : option str) : Prop :=
  exists words,
    out = Some (sel ++ concat words)
    /\ Forall2 (fun p w => enc p = Some w /\ len w = 64
                           /\ forallb isHexDigit w = true) params words.

(** *** Words of a data blob *)

(** The consecutive strides of 64 characters of a text, in order; the last
    one holds what is left. *)
Fixpoint stridesFuel (fuel : nat) (s : str) : list str :=
  match fuel with
  | O => []
  | S f =>
      match s with
      | [] => []
      | _ => firstn 64 s :: stridesFuel f (skipn 64 s)
      end
  end.

Definition strides (s : str) : list str := stridesFuel (length s) s.

(** All the results, when every call returned. *)
Fixpoint allSome {A : Type} (l : list (option A)) : option (list A) :=
  match l with
  | [] => Some []
  | x :: l' =>
      match x, allSome l' with
      | Some a, Some r => Some (a :: r)
      | _, _ => None
      end
  end.

(** The decoding the claim describes: every stride, the last one padded on
    the right, each with the type at its position and as an unsigned
    integer past the declared types. *)
Definition decodeWord (types : list str) (i : nat) (chunk0 : str) : option str :=
  let chunk := padEnd 64 "0" chunk0 in
  match nth_error types i with
  | Some type => parseLogValue type chunk
  | None => decodeUint256 (lit "0x" ++ chunk)
  end.

Definition decodeWords (cleanData : str) (types : list str) : option (list str) :=
  let chunks := strides cleanData in
  allSome (map (fun ic => decodeWord types (fst ic) (snd ic))
               (combine (seq 0 (length chunks)) chunks)).

(** *** A single dynamic string *)


(** UTF-8 text made of bytes below 128: one character per byte. *)
Definition asciiText (bytes : list Z) : str :=
  map (fun b => ascii_of_nat (Z.to_nat b)) bytes.


End Props.

(** ** The rest of nodes/Cronos/utils/index.ts *)

Module UtilsRest.
Import JS Utils.

(** [value] is a string or undefined ([None]). *)
Definition parseTransactionValue (value : option str) (decimals : Z) : option str :=
  match value with
  | None => Some (lit "0")
  | Some [] => Some (lit "0")
  | Some v =>
      if str_eqb v (lit "0x") || str_eqb v (lit "0x0") then Some (lit "0")
      else andThen (hexToDecimal v) (fun w => weiToCro (VStr w) decimals)
  end.

Definition formatGasPrice (gasPrice : str) : option str :=
  andThen (hexToDecimal gasPrice) (fun gasPriceWei =>
  weiToCro (VStr gasPriceWei) 9).

Definition calculateTxFee (gasUsed gasPrice : str) : option str :=
  andThen (hexToDecimal gasUsed) (fun gasUsedDecimal =>
  andThen (hexToDecimal gasPrice) (fun gasPriceDecimal =>
  andThen (BigInt_ofString gasUsedDecimal) (fun a =>
  andThen (BigInt_ofString gasPriceDecimal) (fun b =>
  let feeWei := a * b in
  weiToCro (VStr (BigInt_toString 10 feeWei)) CRO_DECIMALS)))).

Definition truncateAddress (address : str) : str :=
  match address with
  | [] => []
  | _ => slice address 0 6 ++ lit "..." ++ sliceFrom address (-4)
  end.

End UtilsRest.

(** ** The [convertUnits] action *)

Module UtilityUnits.
Import JS Utils.

(** The [json] of the item the action returns. *)
Record conversion := {
  inputValue : str;
  inputUnit : str;
  outputValue : str;
  outputUnit : str;
  wei : str;
  gwei : str;
  cro : str;
  hex : str;
  decimalsUsed : Z
}.

(** The first [switch]: the input in Wei. *)
Definition toWei (value fromUnit : str) (decimals : Z) : option str :=
  if str_eqb fromUnit (lit "wei") then Some value
  else if str_eqb fromUnit (lit "gwei") then croToWei (VStr value) 9
  else if str_eqb fromUnit (lit "cro") || str_eqb fromUnit (lit "ether") then
    croToWei (VStr value) 18
  else if str_eqb fromUnit (lit "custom") then croToWei (VStr value) decimals
  else Some value.

(** The second [switch]: from Wei to the target unit. *)
Definition fromWei (valueInWei toUnit : str) (decimals : Z) : option str :=
  if str_eqb toUnit (lit "wei") then Some valueInWei
  else if str_eqb toUnit (lit "gwei") then weiToCro (VStr valueInWei) 9
  else if str_eqb toUnit (lit "cro") || str_eqb toUnit (lit "ether") then
    weiToCro (VStr valueInWei) 18
  else if str_eqb toUnit (lit "custom") then weiToCro (VStr valueInWei) decimals
  else Some valueInWei.

Definition convertUnits (value fromUnit toUnit : str) (decimals : Z)
  : option conversion :=
  andThen (toWei value fromUnit decimals) (fun valueInWei =>
  andThen (fromWei valueInWei toUnit decimals) (fun result =>
  andThen (weiToCro (VStr valueInWei) 9) (fun g =>
  andThen (weiToCro (VStr valueInWei) 18) (fun c =>
  andThen (decimalToHex (VStr valueInWei)) (fun h =>
  Some {| inputValue := value; inputUnit := fromUnit;
          outputValue := result; outputUnit := toUnit;
          wei := valueInWei; gwei := g; cro := c; hex := h;
          decimalsUsed := decimals |}))))).

End UtilityUnits.

(** ** The gas price suggestions of the [getGasPrice] action *)

Module Network.
Import JS Utils UtilsRest.

Record suggestions := {
  slowWei : Z;
  slowGwei : str;
  standardWei : str;
  standardGwei : str;
  fastWei : Z;
  fastGwei : str;
  instantWei : Z;
  instantGwei : str
}.

(** From the result of [eth_gasPrice] to the [suggestions] of the item. *)
Definition gasSuggestions (gasPrice : str) : option suggestions :=
  andThen (hexToDecimal gasPrice) (fun gasPriceWei =>
  andThen (formatGasPrice gasPrice) (fun gasPriceGwei =>
  andThen (BigInt_ofString gasPriceWei) (fun baseFeeWei =>
  andThen (weiToCro (VStr (BigInt_toString 10 (Z.quot (baseFeeWei * 90) 100))) 9)
          (fun slow =>
  andThen (weiToCro (VStr (BigInt_toString 10 (Z.quot (baseFeeWei * 120) 100))) 9)
          (fun fast =>
  andThen (weiToCro (VStr (BigInt_toString 10 (Z.quot (baseFeeWei * 150) 100))) 9)
          (fun instant =>
  Some {| slowWei := Z.quot (baseFeeWei * 90) 100; slowGwei := slow;
          standardWei := gasPriceWei; standardGwei := gasPriceGwei;
          fastWei := Z.quot (baseFeeWei * 120) 100; fastGwei := fast;
          instantWei := Z.quot (baseFeeWei * 150) 100; instantGwei := instant |})))))).

End Network.

(** ** The block range of the [getLogs] action *)

Module Events.
Import JS Utils.

(** The [fromBlock] and [toBlock] filter parameters, from a string or a
    number. *)
Definition blockParam (block : value) : option str :=
  if strictEqStr block (lit "latest") || strictEqStr block (lit "earliest")
     || strictEqStr block (lit "pending")
  then Some (toString block)
  else decimalToHex block.

End Events.

(** ** The holders of an ERC-1155 token in [getNFTOwners] *)

Module Owners.
Import JS.

(** A [Map] from strings to BigInt: its entries in insertion order. *)
Definition balances := list (str * Z).

Fixpoint mapGet (m : balances) (k : str) : option Z :=
  match m with
  | [] => None
  | (k', v) :: m' => if str_eqb k' k then Some v else mapGet m' k
  end.

Fixpoint mapSet (m : balances) (k : str) (v : Z) : balances :=
  match m with
  | [] => [(k, v)]
  | (k', v') :: m' =>
      if str_eqb k' k then (k', v) :: m' else (k', v') :: mapSet m' k v
  end.

(** A transfer as the explorer reports it; [tokenValue] may be missing. *)
Record transfer := {
  tokenID : str;
  from : str;
  to : str;
  tokenValue : option str
}.

Definition zero : str := lit "0x0000000000000000000000000000000000000000".

(** [ownerBalances.get(k) || BigInt(0)] *)
Definition balanceOf (m : balances) (k : str) : Z :=
  match mapGet m k with Some b => b | None => 0 end.

(** One turn of the loop over the transfers. *)
Definition applyTransfer (ownerBalances : balances) (t : transfer)
  : option balances :=
  let from := toLowerCase (from t) in
  let to := toLowerCase (to t) in
  let text := match tokenValue t with
              | None => lit "1"
              | Some [] => lit "1"
              | Some v => v
              end in
  match BigInt_ofString text with
  | None => None
  | Some value =>
      let m1 := if negb (str_eqb from zero)
                then mapSet ownerBalances from (balanceOf ownerBalances from - value)
                else ownerBalances in
      Some (mapSet m1 to (balanceOf m1 to + value))
  end.

Fixpoint applyTransfers (ownerBalances : balances) (ts : list transfer)
  : option balances :=
  match ts with
  | [] => Some ownerBalances
  | t :: rest =>
      match applyTransfer ownerBalances t with
      | Some m => applyTransfers m rest
      | None => None
      end
  end.

(** The map built from the transfers of [tokenId], oldest first (the
    explorer lists them newest first). *)
Definition ownerBalances (tokenId : str) (transfers : list transfer)
  : option balances :=
  let tokenTransfers := filter (fun t => str_eqb (tokenID t) tokenId) transfers in
  applyTransfers [] (rev tokenTransfers).

(** The [owners] of the item: the entries with a positive balance. *)
Definition owners (tokenId : str) (transfers : list transfer)
  : option (list (str * str)) :=
  option_map
    (fun m => map (fun e => (fst e, BigInt_toString 10 (snd e)))
                  (filter (fun e => 0 <? snd e) m))
    (ownerBalances tokenId transfers).

End Owners.

(** ** The new-block poll of the trigger node *)

Module Trigger.
Import JS.

(** One poll: [stored] is [webhookData.lastBlock] (missing when [None]) and
    [result] the answer to [eth_blockNumber].  It gives the numbers of the
    blocks asked for, in order, and the new [webhookData.lastBlock]; a NaN
    there is [None], which the next poll takes for a missing value just the
    same. *)
Definition pollNewBlock (stored : option Z) (result : str) : list Z * option Z :=
  match parseInt16 result with
  | None => ([], None)
  | Some currentBlock =>
      let lastBlock := match stored with
                       | Some l => if l =? 0 then currentBlock - 1 else l
                       | None => currentBlock - 1
                       end in
      if currentBlock <=? lastBlock then ([], stored)
      else
        let blocksToFetch := Z.min (currentBlock - lastBlock) 10 in
        (map (fun i => lastBlock + 1 + Z.of_nat i) (seq 0 (Z.to_nat blocksToFetch)),
         Some (lastBlock + blocksToFetch))
  end.

End Trigger.

(** ** The call data of [readContract] and [writeContract] *)

Module SmartContracts.
Import JS Utils.

(** What one turn of the loop that builds [callData] appends.  The
    parameters are parsed JSON: a string method called on a value that is
    not a string throws. *)
Definition callParam (p : param) : option str :=
  if str_eqb (ptype p) (lit "address") then
    match pvalue p with
    | VStr s => Some (padStart 64 "0" (replaceFirst (lit "0x") [] (toLowerCase s)))
    | _ => None
    end
  else if str_eqb (ptype p) (lit "uint256") || startsWith (lit "uint") (ptype p) then
    option_map (fun n => padStart 64 "0" (BigInt_toString 16 n)) (BigInt (pvalue p))
  else if str_eqb (ptype p) (lit "bool") then
    Some (padStart 64 "0"
            (if strictEqStr (pvalue p) (lit "true") || strictEqStr (pvalue p) (lit "1")
             then lit "1" else lit "0"))
  else if str_eqb (ptype p) (lit "bytes32") then
    match pvalue p with
    | VStr s => Some (padEnd 64 "0" (replaceFirst (lit "0x") [] s))
    | _ => None
    end
  else Some [].

Fixpoint callLoop (params : list param) (callData : str) : option str :=
  match params with
  | [] => Some callData
  | p :: rest =>
      match callParam p with
      | Some w => callLoop rest (callData ++ w)
      | None => None
      end
  end.

Definition callData (functionSignature : str) (params : list param) : option str :=
  callLoop params functionSignature.

End SmartContracts.

(** ** [getPoolInfo] *)

Module Defi.
Import JS Utils.

(** The [KNOWN_TOKENS] of the constants. *)
Record tokenInfo := { name : str; symbol : str; decimals : Z }.

Definition KNOWN_TOKENS : list (str * tokenInfo) :=
  [ (lit "0x5C7F8A570d578ED84E63fdFA7b1eE72dEae1AE23",
     {| name := lit "Wrapped CRO"; symbol := lit "WCRO"; decimals := 18 |});
    (lit "0xc21223249CA28397B4B6541dfFaEcC539BfF0c59",
     {| name := lit "USD Coin"; symbol := lit "USDC"; decimals := 6 |});
    (lit "0x66e428c3f67a68878562e79A0234c1F83c208770",
     {| name := lit "Tether USD"; symbol := lit "USDT"; decimals := 6 |});
    (lit "0xF2001B145b43032AAF5Ee2884e456CCd805F677D",
     {| name := lit "Dai Stablecoin"; symbol := lit "DAI"; decimals := 18 |});
    (lit "0xe44Fd7fCb2b1581822D0c862B68222998a0c299a",
     {| name := lit "Wrapped ETH"; symbol := lit "WETH"; decimals := 18 |});
    (lit "0x062E66477Faf219F25D27dCED647BF57C3107d52",
     {| name := lit "Wrapped BTC"; symbol := lit "WBTC"; decimals := 8 |});
    (lit "0x2D03bECE6747ADC00E1a131BBA1469C15fD11e03",
     {| name := lit "VVS Finance"; symbol := lit "VVS"; decimals := 18 |}) ].

(** [KNOWN_TOKENS[token] || { name: 'Unknown', symbol: 'UNK', decimals: 18 }].
    The keys are compared as they are written.  (An object also answers to
    the names it inherits, such as constructor; none of them starts with 0x,
    as every result of [decodeAddress] does.) *)
Definition tokenInfoOf (token : str) : tokenInfo :=
  match find (fun e => str_eqb (fst e) token) KNOWN_TOKENS with
  | Some e => snd e
  | None => {| name := lit "Unknown"; symbol := lit "UNK"; decimals := 18 |}
  end.

(** [parseInt(s, 10)]: leading white space, a sign, then the longest run of
    decimal digits, as the nearest Number (exact below 2^53; past twenty
    digits the language lets an engine approximate, far beyond any valid
    time).  [None] stands for NaN and for an infinity alike: the caller
    makes a Date of the result, and both make an invalid one. *)
Fixpoint decRun (s : str) (acc : Z) : Z :=
  match s with
  | c :: s' =>
      match digitVal 10 c with
      | Some d => decRun s' (acc * 10 + d)
      | None => acc
      end
  | [] => acc
  end.

Definition parseInt10 (s : str) : option Z :=
  let t := trimStart s in
  let neg := startsWith (lit "-") t in
  let t1 := if neg || startsWith (lit "+") t then skipn 1 t else t in
  if startsWithDigit 10 t1 then
    let n := roundBinary64 (decRun t1 0) in
    if n <? 2 ^ 1024 then Some (if neg then - n else n) else None
  else None.

(** The time value of [new Date(blockTimestampLast * 1000)]: the product as
    a Number, and no time value ([None]) when it is NaN or beyond
    8.64e15 milliseconds on either side, where [toISOString] throws a
    RangeError. *)
Definition timeValue (blockTimestampLast : option Z) : option Z :=
  match blockTimestampLast with
  | Some n =>
      let tv := if n <? 0 then - roundBinary64 (- n * 1000)
                else roundBinary64 (n * 1000) in
      if Z.abs tv <=? 8640000000000000 then Some tv else None
  | None => None
  end.

Record poolToken := {
  address : str;
  tokenName : str;
  tokenSymbol : str;
  reserve : str;
  reserveRaw : str
}.

Record poolInfo := {
  poolAddress : str;
  token0 : poolToken;
  token1 : poolToken;
  totalSupply : str;
  totalSupplyRaw : str;
  lastUpdate : str
}.

Section PoolInfo.

(** The text of a valid time value belongs to the platform and is kept
    abstract. *)
Variable toISOString : Z -> str.

(** [getPoolInfo], from the pool address and the results of the four
    [eth_call]s to the item it returns. *)
Definition getPoolInfo (poolAddress token0Result token1Result reservesResult
                          supplyResult : str) : option poolInfo :=
  if negb (isValidAddress poolAddress) then None
  else
    let token0 := decodeAddress token0Result in
    let token1 := decodeAddress token1Result in
    let reservesHex := replaceFirst (lit "0x") [] reservesResult in
    andThen (hexToDecimal (lit "0x" ++ slice reservesHex 0 64)) (fun reserve0 =>
    andThen (hexToDecimal (lit "0x" ++ slice reservesHex 64 128)) (fun reserve1 =>
    andThen (hexToDecimal (lit "0x" ++ slice reservesHex 128 192)) (fun stamp =>
    let blockTimestampLast := parseInt10 stamp in
    andThen (hexToDecimal supplyResult) (fun totalSupply =>
    let token0Info := tokenInfoOf token0 in
    let token1Info := tokenInfoOf token1 in
    andThen (weiToCro (VStr reserve0) (decimals token0Info)) (fun amount0 =>
    andThen (weiToCro (VStr reserve1) (decimals token1Info)) (fun amount1 =>
    andThen (weiToCro (VStr totalSupply) CRO_DECIMALS) (fun supply =>
    andThen (timeValue blockTimestampLast) (fun tv =>
    Some {| poolAddress := poolAddress;
            token0 := {| address := token0; tokenName := name token0Info;
                         tokenSymbol := symbol token0Info;
                         reserve := amount0; reserveRaw := reserve0 |};
            token1 := {| address := token1; tokenName := name token1Info;
                         tokenSymbol := symbol token1Info;
                         reserve := amount1; reserveRaw := reserve1 |};
            totalSupply := supply;
            totalSupplyRaw := totalSupply;
            lastUpdate := toISOString tv |})))))))).

End PoolInfo.

End Defi.

(** ** What the other functions are meant to compute *)

Module PropsMore.
Import JS Utils.


(** The sum of the balances of a map. *)
Definition total (m : Owners.balances) : Z :=
  fold_right (fun e acc => snd e + acc) 0 m.

(** What a list of transfers mints: the values that come from the zero
    address. *)
Fixpoint minted (ts : list Owners.transfer) : Z :=
  match ts with
  | [] => 0
  | t :: rest =>
      (if str_eqb (toLowerCase (Owners.from t)) Owners.zero then
         match BigInt_ofString (match Owners.tokenValue t with
                                | None => lit "1"
                                | Some [] => lit "1"
                                | Some v => v
                                end) with
         | Some v => v
         | None => 0
         end
       else 0) + minted rest
  end.

(** What the loop over the transfers keeps true of the map: no key twice,
    every key in lower case. *)
Definition wellFormed (m : Owners.balances) : Prop :=
  NoDup (map fst m) /\ Forall (fun x => toLowerCase x = x) (map fst m).

(** The parameter types that the [encodeFunction] action and the call data
    of [readContract] treat alike: all but the signed integers and the
    dynamic [bytes] and [string]. *)
Definition shared (p : param) : bool :=
  negb (startsWith (lit "int") (ptype p))
  && negb (str_eqb (ptype p) (lit "bytes"))
  && negb (str_eqb (ptype p) (lit "string")).

(** The parameters on which [encodeFunctionCall] throws: an integer type
    with a value that [BigInt] does not take. *)
Definition notAnInteger (p : param) : bool :=
  negb (str_eqb (ptype p) (lit "address")) && Props.isCallInt (ptype p)
  && match BigInt (pvalue p) with Some _ => false | None => true end.

End PropsMore.

(** ** Facts about the runtime *)

Module JSFacts.
Import JS.

(** *** Characters *)

Lemma code_ascii_of_nat (n : nat) :
  (n < 256)%nat -> code (ascii_of_nat n) = Z.of_nat n.
Proof.
  intros H. unfold code. now rewrite nat_ascii_embedding.
Qed.

Lemma code_range (c : ascii) : 0 <= code c < 256.
Proof.
  unfold code. pose proof (nat_ascii_bounded c). lia.
Qed.

Lemma code_digitChar (d : Z) :
  0 <= d < 36 -> code (digitChar d) = if d <? 10 then 48 + d else 87 + d.
Proof.
  intros H. unfold digitChar.
  destruct (d <? 10) eqn:E; rewrite code_ascii_of_nat; lia.
Qed.

Lemma digitVal_digitChar (radix d : Z) :
  radix <= 36 -> 0 <= d < radix -> digitVal radix (digitChar d) = Some d.
Proof.
  intros Hr Hd. unfold digitVal. rewrite code_digitChar by lia.
  destruct (d <? 10) eqn:E.
  - replace ((48 <=? 48 + d) && (48 + d <=? 57)) with true by lia.
    replace (48 + d - 48) with d by lia.
    now replace (d <? radix) with true by lia.
  - replace ((48 <=? 87 + d) && (87 + d <=? 57)) with false by lia.
    replace ((97 <=? 87 + d) && (87 + d <=? 122)) with true by lia.
    replace (87 + d - 87) with d by lia.
    now replace (d <? radix) with true by lia.
Qed.

Lemma digitVal_range (radix : Z) (c : ascii) (v : Z) :
  0 < radix -> digitVal radix c = Some v -> 0 <= v < radix.
Proof.
  unfold digitVal. intros Hr.
  pose proof (code_range c) as Hc.
  destruct ((48 <=? code c) && (code c <=? 57)) eqn:E1;
    [|destruct ((97 <=? code c) && (code c <=? 122)) eqn:E2;
      [|destruct ((65 <=? code c) && (code c <=? 90)) eqn:E3]];
    match goal with |- context [?a <? radix] => destruct (a <? radix) eqn:E end;
    intros [= <-]; lia.
Qed.

Lemma isDecDigit_code (c : ascii) :
  isDecDigit c = true <-> 48 <= code c <= 57.
Proof.
  unfold isDecDigit, digitVal. pose proof (code_range c).
  destruct ((48 <=? code c) && (code c <=? 57)) eqn:E1.
  - replace (code c - 48 <? 10) with true by lia. split; [lia|easy].
  - destruct ((97 <=? code c) && (code c <=? 122)) eqn:E2.
    + replace (code c - 87 <? 10) with false by lia. split; [easy|lia].
    + destruct ((65 <=? code c) && (code c <=? 90)) eqn:E3.
      * replace (code c - 55 <? 10) with false by lia. split; [easy|lia].
      * simpl. split; [easy|lia].
Qed.

Lemma isHexDigit_code (c : ascii) :
  isHexDigit c = true <->
  48 <= code c <= 57 \/ 97 <= code c <= 102 \/ 65 <= code c <= 70.
Proof.
  unfold isHexDigit, digitVal. pose proof (code_range c).
  destruct ((48 <=? code c) && (code c <=? 57)) eqn:E1.
  - replace (code c - 48 <? 16) with true by lia. split; [lia|easy].
  - destruct ((97 <=? code c) && (code c <=? 122)) eqn:E2.
    + destruct (code c - 87 <? 16) eqn:E; split; try easy; lia.
    + destruct ((65 <=? code c) && (code c <=? 90)) eqn:E3.
      * destruct (code c - 55 <? 16) eqn:E; split; try easy; lia.
      * simpl. split; [easy|lia].
Qed.

Lemma isDecDigit_isHexDigit (c : ascii) : isDecDigit c = true -> isHexDigit c = true.
Proof.
  rewrite isDecDigit_code, isHexDigit_code. lia.
Qed.

Lemma isSpace_hex (c : ascii) : isHexDigit c = true -> isSpace c = false.
Proof.
  rewrite isHexDigit_code. unfold isSpace. lia.
Qed.

(** *** Lengths *)

Lemma len_app (a b : str) : len (a ++ b) = len a + len b.
Proof. unfold len. rewrite length_app. lia. Qed.

Lemma len_nonneg (s : str) : 0 <= len s.
Proof. unfold len. lia. Qed.

Lemma length_padStart (n : Z) (c : ascii) (s : str) :
  len s <= n -> len (padStart n c s) = n.
Proof.
  intros H. unfold padStart. rewrite len_app. unfold len in *.
  rewrite repeat_length. lia.
Qed.

Lemma length_padEnd (n : Z) (c : ascii) (s : str) :
  len s <= n -> len (padEnd n c s) = n.
Proof.
  intros H. unfold padEnd. rewrite len_app. unfold len in *.
  rewrite repeat_length. lia.
Qed.

Lemma length_toLowerCase (s : str) : length (toLowerCase s) = length s.
Proof. apply length_map. Qed.

Lemma str_eqb_eq (a b : str) : str_eqb a b = true <-> a = b.
Proof.
  revert b. induction a as [|x a IH]; intros [|y b]; simpl; try easy.
  rewrite andb_true_iff, IH. split.
  - intros [H ->]. apply Ascii.eqb_eq in H. now subst.
  - intros [= -> ->]. split; [apply Ascii.eqb_refl|reflexivity].
Qed.

Lemma str_eqb_neq (a b : str) : a <> b -> str_eqb a b = false.
Proof.
  intros H. destruct (str_eqb a b) eqn:E; [|reflexivity].
  now apply str_eqb_eq in E.
Qed.

Lemma startsWith_app (p s : str) : startsWith p (p ++ s) = true.
Proof.
  induction p as [|x p IH]; simpl; [reflexivity|].
  now rewrite Ascii.eqb_refl.
Qed.

Lemma startsWith_spec (p s : str) :
  startsWith p s = true -> s = p ++ skipn (length p) s.
Proof.
  revert s. induction p as [|x p IH]; intros [|y s]; simpl; try easy.
  rewrite andb_true_iff. intros [H1 H2]. apply Ascii.eqb_eq in H1. subst y.
  f_equal. now apply IH.
Qed.

(** *** Reading and printing digits *)

Section Radix.

Variable radix : Z.
Hypothesis radix_lo : 2 <= radix.
Hypothesis radix_hi : radix <= 36.

Lemma digitsFrom_app (a b : str) (acc : Z) :
  digitsFrom radix (a ++ b) acc =
  match digitsFrom radix a acc with
  | Some x => digitsFrom radix b x
  | None => None
  end.
Proof.
  revert acc. induction a as [|c a IH]; intros acc; simpl; [reflexivity|].
  destruct (digitVal radix c); [apply IH|reflexivity].
Qed.

(** Reading from an accumulator shifts it past the digits read. *)
Lemma digitsFrom_acc (s : str) (acc v : Z) :
  digitsFrom radix s 0 = Some v ->
  digitsFrom radix s acc = Some (acc * radix ^ len s + v).
Proof.
  revert acc v. induction s as [|c s IH] using rev_ind; intros acc v.
  - simpl. intros [= <-]. f_equal. unfold len. simpl. lia.
  - rewrite !digitsFrom_app. destruct (digitsFrom radix s 0) as [x|] eqn:E;
      [|discriminate].
    rewrite (IH acc x eq_refl). simpl.
    destruct (digitVal radix c) as [d|]; [|discriminate].
    intros [= <-]. f_equal. rewrite len_app.
    replace (len [c]) with 1 by reflexivity.
    rewrite Z.pow_add_r by (try apply len_nonneg; lia).
    rewrite Z.pow_1_r. ring.
Qed.

Lemma digitsFrom_nonneg (s : str) (acc v : Z) :
  0 <= acc -> digitsFrom radix s acc = Some v -> 0 <= v.
Proof.
  revert acc. induction s as [|c s IH]; intros acc Ha; simpl.
  - now intros [= <-].
  - destruct (digitVal radix c) as [d|] eqn:E; [|discriminate].
    apply digitVal_range in E; [|lia]. apply IH. nia.
Qed.

Lemma digitsFuel_nonempty (fuel : nat) (n : Z) : digitsFuel fuel radix n <> [].
Proof.
  destruct fuel; simpl; [easy|].
  destruct (n <? radix); [easy|]. now destruct (digitsFuel fuel radix (n / radix)).
Qed.

Lemma digitsFuel_value (fuel : nat) (n : Z) :
  0 <= n < radix ^ Z.of_nat (S fuel) ->
  digitsFrom radix (digitsFuel fuel radix n) 0 = Some n.
Proof.
  revert n. induction fuel as [|f IH]; intros n Hn.
  - simpl in *. rewrite Z.mod_small by lia.
    rewrite digitVal_digitChar by lia. f_equal; lia.
  - cbn [digitsFuel]. destruct (n <? radix) eqn:E.
    + simpl. rewrite digitVal_digitChar by lia. f_equal; lia.
    + rewrite digitsFrom_app, IH.
      * simpl. rewrite digitVal_digitChar.
        -- f_equal. pose proof (Z.div_mod n radix). lia.
        -- lia.
        -- apply Z.mod_pos_bound. lia.
      * split; [apply Z.div_pos; lia|].
        apply Z.div_lt_upper_bound; [lia|].
        rewrite <- Z.pow_succ_r by lia.
        now rewrite <- Nat2Z.inj_succ.
Qed.

Lemma log2_fuel (n : Z) : 0 <= n -> n < radix ^ Z.of_nat (S (Z.to_nat (Z.log2 n))).
Proof.
  intros Hn. rewrite Nat2Z.inj_succ, Z2Nat.id by apply Z.log2_nonneg.
  destruct (Z.eq_dec n 0) as [->|N].
  - simpl. lia.
  - apply Z.lt_le_trans with (2 ^ Z.succ (Z.log2 n)).
    + apply Z.log2_spec. lia.
    + apply Z.pow_le_mono_l. lia.
Qed.

Lemma toDigits_value (n : Z) :
  0 <= n -> digitsFrom radix (toDigits radix n) 0 = Some n.
Proof.
  intros Hn. apply digitsFuel_value. split; [lia|now apply log2_fuel].
Qed.

Lemma toDigits_nonempty (n : Z) : toDigits radix n <> [].
Proof. apply digitsFuel_nonempty. Qed.

Lemma parseDigits_toDigits (n : Z) :
  0 <= n -> parseDigits radix (toDigits radix n) = Some n.
Proof.
  intros Hn. unfold parseDigits.
  destruct (toDigits radix n) eqn:E; [now apply toDigits_nonempty in E|].
  rewrite <- E. now apply toDigits_value.
Qed.

Lemma digitsFuel_digits (fuel : nat) (n : Z) :
  0 <= n ->
  Forall (fun c => exists d, digitVal radix c = Some d) (digitsFuel fuel radix n).
Proof.
  revert n. induction fuel as [|f IH]; intros n Hn.
  - simpl. constructor; [|constructor]. eexists. apply digitVal_digitChar; [lia|].
    apply Z.mod_pos_bound. lia.
  - cbn [digitsFuel]. destruct (n <? radix) eqn:E.
    + constructor; [|constructor]. eexists. apply digitVal_digitChar; lia.
    + apply Forall_app. split.
      * apply IH. apply Z.div_pos; lia.
      * constructor; [|constructor]. eexists. apply digitVal_digitChar; [lia|].
        apply Z.mod_pos_bound. lia.
Qed.

Lemma length_digitsFuel (fuel : nat) (n : Z) (k : nat) :
  (1 <= k)%nat -> 0 <= n < radix ^ Z.of_nat k ->
  (length (digitsFuel fuel radix n) <= k)%nat.
Proof.
  revert n k. induction fuel as [|f IH]; intros n k Hk Hn.
  - simpl. lia.
  - cbn [digitsFuel]. destruct (n <? radix) eqn:E; [simpl; lia|].
    rewrite length_app. simpl.
    destruct k as [|[|k]]; [lia| |].
    + simpl in Hn. lia.
    + assert (length (digitsFuel f radix (n / radix)) <= S k)%nat; [|lia].
      apply IH; [lia|]. split; [apply Z.div_pos; lia|].
      apply Z.div_lt_upper_bound; [lia|].
      rewrite <- Z.pow_succ_r by lia. now rewrite <- Nat2Z.inj_succ.
Qed.

Lemma len_toDigits (n k : Z) :
  1 <= k -> 0 <= n < radix ^ k -> len (toDigits radix n) <= k.
Proof.
  intros Hk Hn. unfold len, toDigits.
  assert (length (digitsFuel (Z.to_nat (Z.log2 n)) radix n) <= Z.to_nat k)%nat; [|lia].
  apply length_digitsFuel; [lia|]. now rewrite Z2Nat.id by lia.
Qed.

End Radix.

Lemma toDigits_hex (n : Z) : 0 <= n -> forallb isHexDigit (toDigits 16 n) = true.
Proof.
  intros Hn. apply forallb_forall. intros c Hc.
  pose proof (digitsFuel_digits 16 ltac:(lia) ltac:(lia) (Z.to_nat (Z.log2 n)) n Hn) as F.
  rewrite Forall_forall in F. destruct (F c Hc) as [d Hd].
  unfold isHexDigit. now rewrite Hd.
Qed.

Lemma toDigits_dec (n : Z) : 0 <= n -> forallb isDecDigit (toDigits 10 n) = true.
Proof.
  intros Hn. apply forallb_forall. intros c Hc.
  pose proof (digitsFuel_digits 10 ltac:(lia) ltac:(lia) (Z.to_nat (Z.log2 n)) n Hn) as F.
  rewrite Forall_forall in F. destruct (F c Hc) as [d Hd].
  unfold isDecDigit. now rewrite Hd.
Qed.

(** *** Trimming, lower case, replacing *)

Lemma trimStart_head (c : ascii) (s : str) :
  isSpace c = false -> trimStart (c :: s) = c :: s.
Proof. intros H. simpl. now rewrite H. Qed.

Lemma trim_noSpace (s : str) :
  forallb (fun c => negb (isSpace c)) s = true -> trim s = s.
Proof.
  intros H. unfold trim, trimEnd.
  assert (T : forall t, forallb (fun c => negb (isSpace c)) t = true ->
                        trimStart t = t).
  { intros [|c t]; simpl; [reflexivity|].
    rewrite andb_true_iff. intros [Hc _].
    now destruct (isSpace c). }
  rewrite (T s H), T.
  - apply rev_involutive.
  - rewrite forallb_forall in *. intros c Hc. apply H. now apply in_rev.
Qed.

Lemma trim_hex (s : str) : forallb isHexDigit s = true -> trim s = s.
Proof.
  intros H. apply trim_noSpace. rewrite forallb_forall in *.
  intros c Hc. now rewrite isSpace_hex by auto.
Qed.

Lemma code_lowerChar (c : ascii) :
  code (lowerChar c) =
  if ((65 <=? code c) && (code c <=? 90))
     || ((192 <=? code c) && (code c <=? 222) && negb (code c =? 215))
  then code c + 32 else code c.
Proof.
  unfold lowerChar.
  destruct (((65 <=? code c) && (code c <=? 90))
            || ((192 <=? code c) && (code c <=? 222) && negb (code c =? 215))) eqn:E;
    [|reflexivity].
  rewrite code_ascii_of_nat; unfold code in *; lia.
Qed.

Lemma lowerChar_hex (c : ascii) : isHexDigit c = true -> isHexDigit (lowerChar c) = true.
Proof.
  rewrite !isHexDigit_code, code_lowerChar.
  destruct (((65 <=? code c) && (code c <=? 90))
            || ((192 <=? code c) && (code c <=? 222) && negb (code c =? 215))) eqn:E;
    lia.
Qed.

Lemma toLowerCase_hex (s : str) :
  forallb isHexDigit s = true -> forallb isHexDigit (toLowerCase s) = true.
Proof.
  rewrite !forallb_forall. intros H c Hc. unfold toLowerCase in Hc.
  apply in_map_iff in Hc. destruct Hc as [x [<- Hx]]. apply lowerChar_hex. auto.
Qed.

(** No hexadecimal digit is an x, so a text of digits holds no "0x". *)
Lemma startsWith_0x_hex (s : str) :
  forallb isHexDigit s = true -> startsWith (lit "0x") s = false.
Proof.
  change (lit "0x") with ["0"%char; "x"%char].
  destruct s as [|c1 [|c2 s]]; cbn [startsWith forallb]; try easy.
  - intros _. apply andb_false_r.
  - rewrite !andb_true_iff. intros [_ [H2 _]].
    destruct (Ascii.eqb_spec "x"%char c2) as [<-|N]; [discriminate|].
    now rewrite andb_false_r.
Qed.

Lemma replaceFirst_0x_hex (s : str) :
  forallb isHexDigit s = true -> replaceFirst (lit "0x") [] s = s.
Proof.
  induction s as [|c s IH]; intros H.
  - reflexivity.
  - cbn [replaceFirst]. rewrite startsWith_0x_hex by assumption.
    simpl in H. apply andb_true_iff in H. f_equal. now apply IH.
Qed.

Lemma replaceFirst_prefix (p s : str) : replaceFirst p [] (p ++ s) = s.
Proof.
  destruct p as [|x p].
  - destruct s; reflexivity.
  - cbn [replaceFirst app]. change (x :: p ++ s) with ((x :: p) ++ s).
    rewrite startsWith_app. simpl. now rewrite skipn_app, skipn_all, Nat.sub_diag.
Qed.

(** *** Slices *)

Lemma slice_all (s : str) (n : Z) : len s <= n -> slice s 0 n = s.
Proof.
  intros H. unfold slice, relIndex. pose proof (len_nonneg s).
  replace (n <? 0) with false by lia. simpl.
  rewrite Z.min_r, Z.min_l by lia. simpl.
  apply firstn_all2. unfold len in *. lia.
Qed.

Lemma slice_nonneg (s : str) (a b : Z) :
  0 <= a <= b ->
  slice s a b = firstn (Z.to_nat (b - a)) (skipn (Z.to_nat a) s).
Proof.
  intros H. unfold slice, relIndex. pose proof (len_nonneg s).
  replace (a <? 0) with false by lia. replace (b <? 0) with false by lia.
  destruct (Z.le_gt_cases b (len s)).
  - now rewrite !Z.min_l by lia.
  - rewrite (Z.min_r b) by lia. destruct (Z.le_gt_cases a (len s)).
    + rewrite Z.min_l by lia. rewrite !firstn_all2; try reflexivity;
        rewrite length_skipn; unfold len in *; lia.
    + rewrite Z.min_r by lia. rewrite !skipn_all2; unfold len in *; try lia.
      now rewrite !firstn_nil.
Qed.

Lemma sliceFrom_nonneg (s : str) (a : Z) :
  0 <= a -> sliceFrom s a = skipn (Z.to_nat a) s.
Proof.
  intros H. unfold sliceFrom, relIndex. pose proof (len_nonneg s).
  replace (a <? 0) with false by lia.
  destruct (Z.le_gt_cases a (len s)).
  - now rewrite Z.min_l by lia.
  - rewrite Z.min_r by lia. rewrite !skipn_all2; unfold len in *; try lia.
    reflexivity.
Qed.

Lemma sliceFrom_last (s : str) (n : Z) :
  n < 0 -> sliceFrom s n = skipn (length s - Z.to_nat (- n)) s.
Proof.
  intros H. unfold sliceFrom, relIndex.
  replace (n <? 0) with true by lia. f_equal. unfold len. lia.
Qed.

(** *** Trailing zeros *)

Lemma dropZeros_spec (t : str) :
  t = repeat "0"%char (length t - length (dropZeros t)) ++ dropZeros t
  /\ (length (dropZeros t) <= length t)%nat.
Proof.
  induction t as [|c t [IH1 IH2]]; [easy|].
  cbn [dropZeros length]. destruct (Ascii.eqb_spec c "0"%char) as [->|N].
  - split; [|lia].
    replace (S (length t) - length (dropZeros t))%nat
      with (S (length t - length (dropZeros t))) by lia.
    cbn [repeat app]. f_equal. exact IH1.
  - split; [|simpl; lia]. cbn [length]. now rewrite Nat.sub_diag.
Qed.

Lemma stripTrailingZeros_spec (s : str) :
  s = stripTrailingZeros s
        ++ repeat "0"%char (length s - length (stripTrailingZeros s))
  /\ (length (stripTrailingZeros s) <= length s)%nat.
Proof.
  unfold stripTrailingZeros. rewrite length_rev.
  destruct (dropZeros_spec (rev s)) as [H1 H2]. rewrite length_rev in *.
  split; [|assumption].
  rewrite <- (rev_involutive s) at 1. rewrite H1 at 1.
  now rewrite rev_app_distr, rev_repeat.
Qed.

Lemma padEnd_stripTrailingZeros (s : str) :
  padEnd (len s) "0" (stripTrailingZeros s) = s.
Proof.
  destruct (stripTrailingZeros_spec s) as [H1 H2].
  unfold padEnd, len.
  transitivity (stripTrailingZeros s
                  ++ repeat "0"%char (length s - length (stripTrailingZeros s)));
    [|symmetry; exact H1].
  f_equal. f_equal. lia.
Qed.

Lemma stripTrailingZeros_forall (P : ascii -> Prop) (s : str) :
  Forall P s -> Forall P (stripTrailingZeros s).
Proof.
  intros H. destruct (stripTrailingZeros_spec s) as [H1 _].
  rewrite H1 in H. now apply Forall_app in H.
Qed.

(** *** Splitting *)

Lemma splitOn_none (sep : ascii) (s : str) :
  forallb (fun c => negb (Ascii.eqb c sep)) s = true -> splitOn sep s = [s].
Proof.
  induction s as [|c s IH]; [reflexivity|]. simpl.
  rewrite andb_true_iff. intros [Hc Hs].
  destruct (Ascii.eqb c sep); [discriminate|]. now rewrite IH.
Qed.

Lemma splitOn_once (sep : ascii) (a b : str) :
  forallb (fun c => negb (Ascii.eqb c sep)) a = true ->
  forallb (fun c => negb (Ascii.eqb c sep)) b = true ->
  splitOn sep (a ++ sep :: b) = [a; b].
Proof.
  intros Ha Hb. induction a as [|c a IH]; simpl.
  - rewrite Ascii.eqb_refl. now rewrite splitOn_none.
  - simpl in Ha. apply andb_true_iff in Ha. destruct Ha as [Hc Ha].
    destruct (Ascii.eqb c sep); [discriminate|]. now rewrite IH.
Qed.

(** *** BigInt *)

Lemma BigInt_ofString_0x (h : str) :
  forallb isHexDigit h = true ->
  BigInt_ofString (lit "0x" ++ h) = parseDigits 16 h.
Proof.
  intros H. unfold BigInt_ofString.
  rewrite trim_noSpace.
  - rewrite startsWith_app. reflexivity.
  - rewrite forallb_app. apply andb_true_iff. split; [reflexivity|].
    rewrite forallb_forall in *. intros c Hc. now rewrite isSpace_hex by auto.
Qed.

Lemma startsWith_dec (x : ascii) (p s : str) :
  isDecDigit x = false -> forallb isDecDigit s = true ->
  startsWith (x :: p) s = false.
Proof.
  intros Hx. destruct s as [|c s]; simpl; [reflexivity|].
  rewrite andb_true_iff. intros [Hc _].
  destruct (Ascii.eqb_spec x c) as [<-|N]; [congruence|reflexivity].
Qed.

Lemma startsWith_0_dec (x : ascii) (s : str) :
  isDecDigit x = false -> forallb isDecDigit s = true ->
  startsWith ["0"%char; x] s = false.
Proof.
  intros Hx. destruct s as [|c1 [|c2 s]]; cbn [startsWith forallb]; try easy.
  - intros _. apply andb_false_r.
  - rewrite !andb_true_iff. intros [_ [H2 _]].
    destruct (Ascii.eqb_spec x c2) as [<-|N]; [congruence|].
    now rewrite andb_false_r.
Qed.

Lemma BigInt_ofString_dec (s : str) :
  s <> [] -> forallb isDecDigit s = true ->
  BigInt_ofString s = parseDigits 10 s.
Proof.
  intros Hne H. unfold BigInt_ofString.
  rewrite trim_hex
    by (rewrite forallb_forall in *; intros c Hc; apply isDecDigit_isHexDigit; auto).
  destruct s as [|c0 s0] eqn:E; [easy|]. rewrite <- E in *.
  change (lit "0x") with ["0"%char; "x"%char].
  change (lit "0X") with ["0"%char; "X"%char].
  change (lit "0o") with ["0"%char; "o"%char].
  change (lit "0O") with ["0"%char; "O"%char].
  change (lit "0b") with ["0"%char; "b"%char].
  change (lit "0B") with ["0"%char; "B"%char].
  change (lit "-") with ["-"%char].
  change (lit "+") with ["+"%char].
  now rewrite !startsWith_0_dec, !startsWith_dec by (reflexivity || assumption).
Qed.

Lemma BigInt_toString_nonneg (radix n : Z) :
  0 <= n -> BigInt_toString radix n = toDigits radix n.
Proof.
  intros H. unfold BigInt_toString. now replace (n <? 0) with false by lia.
Qed.

(** Printing a non-negative integer in decimal and reading it back. *)
Lemma BigInt_ofString_toString (n : Z) :
  0 <= n -> BigInt_ofString (BigInt_toString 10 n) = Some n.
Proof.
  intros H. rewrite BigInt_toString_nonneg by assumption.
  rewrite BigInt_ofString_dec.
  - apply parseDigits_toDigits; lia.
  - apply toDigits_nonempty.
  - now apply toDigits_dec.
Qed.

(** Printing a non-negative integer in hexadecimal and reading it back
    behind the 0x prefix. *)
Lemma BigInt_ofString_hex (n : Z) :
  0 <= n -> BigInt_ofString (lit "0x" ++ BigInt_toString 16 n) = Some n.
Proof.
  intros H. rewrite BigInt_toString_nonneg by assumption.
  rewrite BigInt_ofString_0x by now apply toDigits_hex.
  apply parseDigits_toDigits; lia.
Qed.

End JSFacts.

(** ** Base conversion, addresses and block numbers *)

Module Conversions.
Import JS Utils Props JSFacts.

Lemma hexToDecimal_0x (h : str) :
  h <> [] -> hexToDecimal (lit "0x" ++ h) =
             option_map (BigInt_toString 10) (BigInt_ofString (lit "0x" ++ h)).
Proof.
  intros Hne. unfold hexToDecimal. change (lit "0x" ++ h) with ("0"%char :: "x"%char :: h).
  cbn [str_eqb lit list_ascii_of_string]. destruct h; [easy|]. reflexivity.
Qed.

(** With the prefix, hexadecimal digits of either case are read as an
    unsigned integer and printed in decimal. *)
Lemma hexToDecimal_prefixed (h : str) (v : Z) :
  forallb isHexDigit h = true -> parseDigits 16 h = Some v ->
  hexToDecimal (lit "0x" ++ h) = Some (toDigits 10 v).
Proof.
  intros Hh Hv. rewrite hexToDecimal_0x by (intros ->; discriminate).
  rewrite BigInt_ofString_0x, Hv by assumption. simpl. f_equal.
  apply BigInt_toString_nonneg.
  unfold parseDigits in Hv. destruct h; [discriminate|].
  now apply (digitsFrom_nonneg 16 ltac:(lia)) in Hv.
Qed.

(** C6: [hexToDecimal] gives "0" on the empty string and on "0x", and "16"
    and "255" on "0x10" and "0xff"; but the 0x prefix is not optional: without
    it the digits are read as decimal ("10" gives "10") or not at all ("ff"
    throws). *)
Theorem hexToDecimal_unprefixed :
  hexToDecimal (lit "") = Some (lit "0")
  /\ hexToDecimal (lit "0x") = Some (lit "0")
  /\ hexToDecimal (lit "0x10") = Some (lit "16")
  /\ hexToDecimal (lit "0xff") = Some (lit "255")
  /\ hexToDecimal (lit "10") = Some (lit "10")
  /\ hexToDecimal (lit "ff") = None.
Proof. repeat split; vm_compute; reflexivity. Qed.

(** C7: for every non-negative integer n, converting its decimal text to
    hexadecimal and back gives the decimal text again. *)
Theorem hexToDecimal_decimalToHex (n : Z) :
  0 <= n ->
  andThen (decimalToHex (VStr (BigInt_toString 10 n))) hexToDecimal
  = Some (BigInt_toString 10 n).
Proof.
  intros Hn. unfold decimalToHex. cbn [BigInt].
  rewrite BigInt_ofString_toString by assumption. cbn [option_map andThen].
  rewrite hexToDecimal_0x.
  - now rewrite BigInt_ofString_hex.
  - rewrite BigInt_toString_nonneg by assumption. apply toDigits_nonempty.
Qed.

Lemma hexToDecimal_decimalToHex_witness :
  andThen (decimalToHex (VStr (BigInt_toString 10 255))) hexToDecimal
  = Some (BigInt_toString 10 255).
Proof. apply (hexToDecimal_decimalToHex 255). lia. Defined.

(** C9: [decodeAddress] returns the zero address on the empty string and on
    "0x"; on any other text of hexadecimal digits, with or without the 0x
    prefix, it returns "0x" and the last 40 digits (all of them when there
    are fewer) in lower case. *)
Theorem decodeAddress_last40 (h : str) :
  h <> [] -> forallb isHexDigit h = true ->
  decodeAddress [] = zeroAddress
  /\ decodeAddress (lit "0x") = zeroAddress
  /\ decodeAddress (lit "0x" ++ h) = lit "0x" ++ toLowerCase (skipn (length h - 40) h)
  /\ decodeAddress h = lit "0x" ++ toLowerCase (skipn (length h - 40) h).
Proof.
  intros Hne Hh. repeat split.
  - unfold decodeAddress. change (lit "0x" ++ h) with ("0"%char :: "x"%char :: h).
    cbn [str_eqb lit list_ascii_of_string]. destruct h as [|c h']; [easy|].
    cbn [andb Ascii.eqb Bool.eqb].
    change ("0"%char :: "x"%char :: c :: h') with (lit "0x" ++ c :: h').
    rewrite replaceFirst_prefix. now rewrite sliceFrom_last by lia.
  - unfold decodeAddress. destruct h as [|c h'] eqn:E; [easy|]. rewrite <- E in *.
    rewrite str_eqb_neq by (intros ->; discriminate).
    rewrite replaceFirst_0x_hex by assumption.
    now rewrite sliceFrom_last by lia.
Qed.

Lemma decodeAddress_last40_witness :
  decodeAddress (lit "0x0000000000000000000000005C7F8A570d578ED84E63fdFA7b1eE72dEae1AE23")
  = lit "0x5c7f8a570d578ed84e63fdfa7b1ee72deae1ae23".
Proof.
  apply (decodeAddress_last40
           (lit "0000000000000000000000005C7F8A570d578ED84E63fdFA7b1eE72dEae1AE23"));
    [discriminate|reflexivity].
Defined.

Lemma formatBlockNumber_0x (t : str) :
  formatBlockNumber (VStr (lit "0x" ++ t)) = Some (lit "0x" ++ t).
Proof. reflexivity. Qed.

(** C10: [formatBlockNumber] returns "latest", "earliest", "pending" and any
    string that starts with "0x" unchanged; it turns every other input into
    "0x" followed by its value in hexadecimal, and does so (it does not
    throw) on every input that stands for an integer, with hexadecimal
    digits alone after the prefix when the integer is not negative; and it
    is idempotent wherever it is defined. *)
Theorem formatBlockNumber_idempotent (x : value) :
  (forall s, x = VStr s -> isBlockTag s || startsWith (lit "0x") s = true ->
             formatBlockNumber x = Some s)
  /\ ((forall s, x = VStr s -> isBlockTag s || startsWith (lit "0x") s = false) ->
      formatBlockNumber x
      = option_map (fun n => lit "0x" ++ BigInt_toString 16 n) (BigInt x))
  /\ (forall n, BigInt x = Some n -> exists y, formatBlockNumber x = Some y)
  /\ (forall n, BigInt x = Some n -> 0 <= n ->
        (forall s, x = VStr s -> isBlockTag s || startsWith (lit "0x") s = false) ->
        formatBlockNumber x = Some (lit "0x" ++ toDigits 16 n)
        /\ forallb isHexDigit (toDigits 16 n) = true)
  /\ (forall y, formatBlockNumber x = Some y -> formatBlockNumber (VStr y) = Some y).
Proof.
  assert (D : forall v y, decimalToHex v = Some y ->
                          formatBlockNumber (VStr y) = Some y).
  { intros v y. unfold decimalToHex. destruct (BigInt v) as [n|]; [|discriminate].
    intros [= <-]. apply formatBlockNumber_0x. }
  assert (H16 : forall v n, BigInt v = Some n -> 0 <= n ->
                  decimalToHex v = Some (lit "0x" ++ toDigits 16 n)
                  /\ forallb isHexDigit (toDigits 16 n) = true).
  { intros v n B N. unfold decimalToHex. rewrite B. cbn [option_map].
    rewrite BigInt_toString_nonneg by assumption. split; [reflexivity|].
    now apply toDigits_hex. }
  assert (E : forall v n, BigInt v = Some n -> exists y, decimalToHex v = Some y).
  { intros v n B. unfold decimalToHex. rewrite B. eexists. reflexivity. }
  destruct x as [s|k|k|b]; cbn [formatBlockNumber];
    try (split; [intros s [=]|split; [intros _; reflexivity|split;
           [apply E|split; [intros n B N _; now apply H16|apply D]]]]).
  fold (isBlockTag s).
  destruct (isBlockTag s) eqn:T; [|destruct (startsWith (lit "0x") s) eqn:P];
    cbn [orb].
  - split; [now intros s' [= <-]|split; [|split; [|split]]].
    + intros N. specialize (N s eq_refl). now rewrite T in N.
    + intros n _. now exists s.
    + intros n _ _ N. specialize (N s eq_refl). now rewrite T in N.
    + intros y [= <-]. unfold formatBlockNumber. fold (isBlockTag s). now rewrite T.
  - split; [now intros s' [= <-]|split; [|split; [|split]]].
    + intros N. specialize (N s eq_refl). now rewrite T, P in N.
    + intros n _. now exists s.
    + intros n _ _ N. specialize (N s eq_refl). now rewrite T, P in N.
    + intros y [= <-]. unfold formatBlockNumber. fold (isBlockTag s).
      now rewrite T, P.
  - split; [|split; [intros _; reflexivity|split;
                [apply E|split; [intros n B N _; now apply H16|apply D]]]].
    intros s' [= <-]. now rewrite T, P.
Qed.

Lemma formatBlockNumber_idempotent_witness :
  formatBlockNumber (VNum 255) = Some (lit "0xff")
  /\ formatBlockNumber (VStr (lit "0xff")) = Some (lit "0xff").
Proof.
  destruct (formatBlockNumber_idempotent (VNum 255)) as [_ [_ [_ [H I]]]].
  destruct (H 255 eq_refl ltac:(lia) ltac:(intros s [=])) as [E _].
  split; [exact E|]. exact (I (lit "0xff") E).
Defined.

End Conversions.

(** ** Unit conversion *)

Module Units.
Import JS Utils Props JSFacts.

(** Up to 22 the power of ten is a binary64 value, and [10 ** decimals] is
    exact. *)
Lemma BigInt_pow10_exact (d : Z) : 0 <= d <= 22 -> BigInt_pow10 d = Some (10 ^ d).
Proof.
  intros H. replace d with (Z.of_nat (Z.to_nat d)) by lia.
  assert (K : (Z.to_nat d <= 22)%nat) by lia. revert K.
  generalize (Z.to_nat d) as k. intros k.
  do 23 (destruct k as [|k]; [intros _; vm_compute; reflexivity|]). lia.
Qed.

(** From 23 on it is not: 10^23 has more than 53 significant bits. *)
Lemma pow10_23_not_binary64 : isBinary64 (10 ^ 23) = false.
Proof. vm_compute. reflexivity. Qed.

Lemma weiToCroWith_exact (w d : Z) :
  0 <= w -> 0 <= d -> weiToCroWith (10 ^ d) w d = weiToHuman w d.
Proof.
  intros Hw Hd. unfold weiToCroWith, weiToHuman.
  assert (P : 0 < 10 ^ d) by (apply Z.pow_pos_nonneg; lia).
  rewrite Z.quot_div_nonneg, Z.rem_mod_nonneg by lia.
  pose proof (Z.mod_pos_bound w (10 ^ d) P).
  assert (0 <= w / 10 ^ d) by (apply Z.div_pos; lia).
  now rewrite !BigInt_toString_nonneg by lia.
Qed.

(** Below 23 decimals [weiToCro] is the exact conversion, on a decimal text
    and on a BigInt alike. *)
Lemma weiToCro_exact_upto_22 (w d : Z) :
  0 <= w -> 0 <= d <= 22 ->
  weiToCro (VStr (toDigits 10 w)) d = Some (weiToHuman w d)
  /\ weiToCro (VBig w) d = Some (weiToHuman w d).
Proof.
  intros Hw Hd. unfold weiToCro.
  rewrite <- (BigInt_toString_nonneg 10 w) by assumption.
  rewrite BigInt_ofString_toString, BigInt_pow10_exact by assumption.
  now rewrite weiToCroWith_exact by lia.
Qed.

Lemma toDigits_inj (a b : Z) : 0 <= a -> 0 <= b -> toDigits 10 a = toDigits 10 b -> a = b.
Proof.
  intros Ha Hb E.
  pose proof (toDigits_value 10 ltac:(lia) ltac:(lia) a Ha) as Va.
  pose proof (toDigits_value 10 ltac:(lia) ltac:(lia) b Hb) as Vb.
  rewrite E in Va. congruence.
Qed.

(** Whatever binary64 value the engine takes for [10 ** 23], dividing by it
    does not turn 10^23 Wei into "1". *)
Lemma weiToCroWith_23_inexact (divisor : Z) :
  0 < divisor -> isBinary64 divisor = true ->
  weiToCroWith divisor (10 ^ 23) 23 <> lit "1".
Proof.
  intros Hd Hb. unfold weiToCroWith.
  assert (N : divisor <> 10 ^ 23).
  { intros ->. rewrite pow10_23_not_binary64 in Hb. discriminate. }
  rewrite Z.quot_div_nonneg, Z.rem_mod_nonneg by lia.
  assert (Q : 0 <= 10 ^ 23 / divisor) by (apply Z.div_pos; lia).
  destruct (10 ^ 23 mod divisor =? 0) eqn:E.
  - rewrite BigInt_toString_nonneg by assumption.
    change (lit "1") with (toDigits 10 1). intros T.
    apply toDigits_inj in T; [|lia|lia].
    pose proof (Z.div_mod (10 ^ 23) divisor). lia.
  - rewrite BigInt_toString_nonneg by assumption. intros T.
    apply (f_equal (@length ascii)) in T. rewrite length_app in T.
    pose proof (toDigits_nonempty 10 (10 ^ 23 / divisor)) as NE.
    destruct (toDigits 10 (10 ^ 23 / divisor)); [easy|].
    simpl in T. lia.
Qed.

(** C3: at 23 decimals [weiToCro] divides by the binary64 value of
    [10 ** 23], not by 10^23: one unit of 10^23 Wei comes out as
    "1.00000000000000008388608" (as "0.1" were the power rounded up to the
    next binary64 value), where the exact conversion is "1"; and at 309
    decimals, where the power is Infinity, it throws. *)
Theorem weiToCro_23_decimals :
  weiToCro (VStr (lit "100000000000000000000000")) 23
  = Some (lit "1.00000000000000008388608")
  /\ weiToCroWith 100000000000000008388608 (10 ^ 23) 23 = lit "0.1"
  /\ weiToHuman (10 ^ 23) 23 = lit "1"
  /\ weiToCro (VStr (lit "1")) 309 = None.
Proof. repeat split; vm_compute; reflexivity. Qed.

(** *** Back to Wei *)

Lemma digitVal_zero (radix : Z) : 0 < radix -> digitVal radix "0" = Some 0.
Proof.
  intros H. change "0"%char with (digitChar 0). unfold digitVal.
  change (code (digitChar 0)) with 48. simpl. now replace (0 <? radix) with true by lia.
Qed.

Lemma digitsFrom_zeros (k : nat) (s : str) :
  digitsFrom 10 (repeat "0"%char k ++ s) 0 = digitsFrom 10 s 0.
Proof.
  induction k as [|k IH]; [reflexivity|].
  cbn [repeat app digitsFrom]. now rewrite digitVal_zero by lia.
Qed.

Lemma dec_no_dot (s : str) :
  forallb isDecDigit s = true ->
  forallb (fun c => negb (Ascii.eqb c ".")) s = true.
Proof.
  rewrite !forallb_forall. intros H c Hc. specialize (H c Hc).
  destruct (Ascii.eqb_spec c "."%char) as [->|N]; [discriminate|reflexivity].
Qed.

Lemma repeat_dec (k : nat) : forallb isDecDigit (repeat "0"%char k) = true.
Proof. induction k; [reflexivity|exact IHk]. Qed.

Lemma padStart_dec (d : Z) (s : str) :
  forallb isDecDigit s = true -> forallb isDecDigit (padStart d "0" s) = true.
Proof.
  intros H. unfold padStart. now rewrite forallb_app, repeat_dec.
Qed.

(** The text [croToWei] reads back: whole digits, then fraction digits. *)
Lemma combined_value (W F : str) (whole frac : Z) :
  W <> [] ->
  forallb isDecDigit W = true -> forallb isDecDigit F = true ->
  digitsFrom 10 W 0 = Some whole -> digitsFrom 10 F 0 = Some frac ->
  BigInt_ofString (W ++ F) = Some (whole * 10 ^ len F + frac).
Proof.
  intros Hne HW HF VW VF.
  rewrite BigInt_ofString_dec.
  - unfold parseDigits. destruct (W ++ F) eqn:E.
    + apply app_eq_nil in E. now destruct E.
    + rewrite <- E, (digitsFrom_app 10), VW.
      now apply digitsFrom_acc; try lia.
  - intros E. apply app_eq_nil in E. now destruct E.
  - now rewrite forallb_app, HW, HF.
Qed.

(** [croToWei] undoes the exact conversion, at any number of decimals. *)
Lemma croToWei_weiToHuman (w d : Z) :
  0 <= w -> 0 <= d ->
  croToWei (VStr (weiToHuman w d)) d = Some (toDigits 10 w).
Proof.
  intros Hw Hd.
  assert (P : 0 < 10 ^ d) by (apply Z.pow_pos_nonneg; lia).
  pose proof (Z.mod_pos_bound w (10 ^ d) P) as Hf.
  assert (Hq : 0 <= w / 10 ^ d) by (apply Z.div_pos; lia).
  pose proof (Z.div_mod w (10 ^ d) ltac:(lia)) as Hdm.
  pose proof (toDigits_dec (w / 10 ^ d) Hq) as WD.
  pose proof (toDigits_nonempty 10 (w / 10 ^ d)) as WN.
  pose proof (toDigits_value 10 ltac:(lia) ltac:(lia) (w / 10 ^ d) Hq) as WV.
  unfold croToWei, weiToHuman. cbn [toString].
  destruct (w mod 10 ^ d =? 0) eqn:E.
  - rewrite splitOn_none by now apply dec_no_dot.
    cbn [nth]. unfold padEnd at 1. cbn [app]. change (len []) with 0.
    rewrite slice_all by (unfold len; rewrite repeat_length; lia).
    rewrite (combined_value _ _ (w / 10 ^ d) 0); try assumption.
    + cbn [option_map]. unfold len. rewrite repeat_length.
      rewrite BigInt_toString_nonneg by nia.
      do 2 f_equal. replace (Z.of_nat (Z.to_nat (d - 0))) with d by lia.
      apply Z.eqb_eq in E. rewrite E in Hdm.
      symmetry. etransitivity; [exact Hdm|ring].
    + apply repeat_dec.
    + rewrite <- (app_nil_r (repeat _ _)). now rewrite digitsFrom_zeros.
  - set (F := padStart d "0" (toDigits 10 (w mod 10 ^ d))).
    assert (D1 : 1 <= d).
    { destruct (Z.eq_dec d 0) as [->|]; [|lia].
      rewrite Z.pow_0_r, Z.mod_1_r in E. discriminate. }
    assert (LF : len F = d).
    { apply length_padStart. apply len_toDigits; lia. }
    assert (FD : forallb isDecDigit F = true).
    { apply padStart_dec, toDigits_dec. lia. }
    assert (FV : digitsFrom 10 F 0 = Some (w mod 10 ^ d)).
    { unfold F, padStart. rewrite digitsFrom_zeros. apply toDigits_value; lia. }
    change (lit "." ++ stripTrailingZeros F) with ("."%char :: stripTrailingZeros F).
    rewrite splitOn_once.
    + cbn [nth]. pose proof (padEnd_stripTrailingZeros F) as PE.
      rewrite LF in PE. rewrite PE, slice_all by lia.
      rewrite (combined_value _ _ (w / 10 ^ d) (w mod 10 ^ d)); try assumption.
      cbn [option_map]. rewrite LF, BigInt_toString_nonneg by nia.
      do 2 f_equal. lia.
    + now apply dec_no_dot.
    + apply dec_no_dot. apply forallb_forall. apply Forall_forall.
      apply stripTrailingZeros_forall. apply Forall_forall. now apply forallb_forall.
Qed.

(** Below 23 decimals the round trip from Wei and back is the identity. *)
Lemma croToWei_weiToCro_upto_22 (w d : Z) :
  0 <= w -> 0 <= d <= 22 ->
  andThen (weiToCro (VStr (toDigits 10 w)) d) (fun h => croToWei (VStr h) d)
  = Some (toDigits 10 w).
Proof.
  intros Hw Hd. destruct (weiToCro_exact_upto_22 w d Hw Hd) as [-> _].
  cbn [andThen]. apply croToWei_weiToHuman; lia.
Qed.

(** C4: at 23 decimals the round trip does not give the Wei value back:
    10^23 Wei becomes "1.00000000000000008388608" and then
    100000000000000008388608 Wei (and "0.1" and 10^22 Wei, were the power
    [10 ** 23] rounded up to the next binary64 value). *)
Theorem croToWei_weiToCro_23_decimals :
  andThen (weiToCro (VStr (lit "100000000000000000000000")) 23)
          (fun h => croToWei (VStr h) 23)
  = Some (lit "100000000000000008388608")
  /\ croToWei (VStr (weiToCroWith 100000000000000008388608 (10 ^ 23) 23)) 23
     = Some (lit "10000000000000000000000").
Proof. split; vm_compute; reflexivity. Qed.

End Units.

(** ** Encoding *)

Module Encoding.
Import JS Utils Props JSFacts.

Lemma sliceFrom_0x (s : str) : sliceFrom (lit "0x" ++ s) 2 = s.
Proof. now rewrite sliceFrom_nonneg by lia. Qed.

Lemma isValidAddress_split (a : str) :
  isValidAddress a = true ->
  exists h, a = lit "0x" ++ h /\ len h = 40 /\ forallb isHexDigit h = true.
Proof.
  unfold isValidAddress, isPrefixedHex. rewrite !andb_true_iff.
  intros [[P L] H]. exists (skipn 2 a). apply startsWith_spec in P.
  split; [exact P|]. split; [|exact H].
  rewrite P in L. rewrite len_app in L. change (len (lit "0x")) with 2 in L.
  change (length (lit "0x")) with 2%nat in L. lia.
Qed.

Lemma toLowerCase_0x (h : str) :
  toLowerCase (lit "0x" ++ h) = lit "0x" ++ toLowerCase h.
Proof. reflexivity. Qed.

Lemma len_toLowerCase (s : str) : len (toLowerCase s) = len s.
Proof. unfold len. now rewrite length_toLowerCase. Qed.

Lemma repeat_hex (k : nat) : forallb isHexDigit (repeat "0"%char k) = true.
Proof. induction k; [reflexivity|exact IHk]. Qed.

Lemma padStart_hex (n : Z) (s : str) :
  forallb isHexDigit s = true -> forallb isHexDigit (padStart n "0" s) = true.
Proof. intros H. unfold padStart. now rewrite forallb_app, repeat_hex. Qed.

Lemma padEnd_hex (n : Z) (s : str) :
  forallb isHexDigit s = true -> forallb isHexDigit (padEnd n "0" s) = true.
Proof. intros H. unfold padEnd. now rewrite forallb_app, repeat_hex, H. Qed.

(** The word of an address: 24 zeros, then its 40 digits in lower case. *)
Lemma address_word (a : str) :
  isValidAddress a = true ->
  padStart 64 "0" (replaceFirst (lit "0x") [] (toLowerCase a))
  = repeat "0"%char 24 ++ toLowerCase (skipn 2 a)
  /\ len (padStart 64 "0" (replaceFirst (lit "0x") [] (toLowerCase a))) = 64
  /\ forallb isHexDigit (padStart 64 "0" (replaceFirst (lit "0x") [] (toLowerCase a)))
     = true.
Proof.
  intros V. destruct (isValidAddress_split a V) as [h [-> [L H]]].
  rewrite toLowerCase_0x, replaceFirst_prefix.
  assert (L' : len (toLowerCase h) = 40) by now rewrite len_toLowerCase.
  repeat split.
  - unfold padStart. rewrite L'. reflexivity.
  - apply length_padStart. lia.
  - now apply padStart_hex, toLowerCase_hex.
Qed.

Lemma word_spec (n : Z) :
  0 <= n < 2 ^ 256 -> len (word n) = 64 /\ forallb isHexDigit (word n) = true.
Proof.
  intros H. unfold word. split.
  - apply length_padStart. apply len_toDigits; lia.
  - apply padStart_hex, toDigits_hex. lia.
Qed.

Lemma bytes32_word (s : str) :
  isBytes32 s = true ->
  len (padEnd 64 "0" (replaceFirst (lit "0x") [] s)) = 64
  /\ forallb isHexDigit (padEnd 64 "0" (replaceFirst (lit "0x") [] s)) = true.
Proof.
  unfold isBytes32. rewrite andb_true_iff. intros [H L].
  assert (E : replaceFirst (lit "0x") [] s
              = if startsWith (lit "0x") s then skipn 2 s else s).
  { destruct (startsWith (lit "0x") s) eqn:P.
    - apply startsWith_spec in P. rewrite P at 1. apply replaceFirst_prefix.
    - now apply replaceFirst_0x_hex. }
  rewrite E. split; [apply length_padEnd; now apply Z.leb_le|now apply padEnd_hex].
Qed.

(** *** [encodeFunctionCall] *)

Lemma call_param (p : param) :
  inRange isCallInt p = true ->
  exists w, Utils.encodeParam p = Some w /\ len w = 64
            /\ forallb isHexDigit w = true.
Proof.
  unfold inRange, Utils.encodeParam. fold (isCallInt (ptype p)).
  destruct (str_eqb (ptype p) (lit "address")).
  { destruct (pvalue p) as [s| | |]; try discriminate. intros V.
    cbn [toString]. unfold padAddress. rewrite sliceFrom_0x.
    eexists. split; [reflexivity|]. now apply address_word. }
  destruct (isCallInt (ptype p)).
  { unfold padNumber. destruct (BigInt (pvalue p)) as [n|]; [|discriminate].
    intros R. cbn [option_map]. rewrite sliceFrom_0x.
    rewrite BigInt_toString_nonneg by lia.
    eexists. split; [reflexivity|]. apply word_spec. lia. }
  destruct (str_eqb (ptype p) (lit "bool")).
  { intros _. destruct (truthy (pvalue p)); eexists; (split; [reflexivity|]);
      split; reflexivity. }
  destruct (str_eqb (ptype p) (lit "bytes32")); [|discriminate].
  destruct (pvalue p) as [s| | |]; try discriminate. intros B.
  cbn [toString]. eexists. split; [reflexivity|]. now apply bytes32_word.
Qed.

Lemma call_loop (params : list param) (data : str) :
  forallb (inRange isCallInt) params = true ->
  wordPerParam Utils.encodeParam data params (Utils.encodeLoop params data).
Proof.
  revert data. induction params as [|p params IH]; intros data H.
  - exists []. split; [simpl; now rewrite app_nil_r|constructor].
  - simpl in H. apply andb_true_iff in H. destruct H as [Hp Hps].
    destruct (call_param p Hp) as [w [E [L X]]].
    destruct (IH (data ++ w) Hps) as [ws [O F]].
    exists (w :: ws). cbn [Utils.encodeLoop concat]. rewrite E, O.
    split; [now rewrite app_assoc|]. now constructor.
Qed.

(** *** The [encodeFunction] action *)

Lemma action_param (n : Z) (p : param) :
  inRange isActionInt p = true ->
  exists w, Utility.encodeParam n p = Some w /\ len w = 64
            /\ forallb isHexDigit w = true.
Proof.
  unfold inRange, Utility.encodeParam.
  destruct (str_eqb (ptype p) (lit "address")).
  { destruct (pvalue p) as [s| | |]; try discriminate. intros V.
    cbn [toString]. rewrite V. cbn [negb].
    eexists. split; [reflexivity|]. now apply address_word. }
  replace (str_eqb (ptype p) (lit "uint256") || startsWith (lit "uint") (ptype p)
           || startsWith (lit "int") (ptype p)) with (isActionInt (ptype p)).
  2:{ unfold isActionInt. destruct (str_eqb (ptype p) (lit "uint256")) eqn:E;
        [|reflexivity].
      apply str_eqb_eq in E. now rewrite E. }
  destruct (isActionInt (ptype p)).
  { destruct (BigInt (pvalue p)) as [k|]; [|discriminate].
    intros R. cbn [option_map]. rewrite BigInt_toString_nonneg by lia.
    eexists. split; [reflexivity|]. apply word_spec. lia. }
  destruct (str_eqb (ptype p) (lit "bool")).
  { intros _.
    destruct (strictEqStr (pvalue p) (lit "true") || strictEqStr (pvalue p) (lit "1"));
      eexists; (split; [reflexivity|]); split; reflexivity. }
  destruct (str_eqb (ptype p) (lit "bytes32")); [|discriminate].
  destruct (pvalue p) as [s| | |]; try discriminate. intros B.
  eexists. split; [reflexivity|]. now apply bytes32_word.
Qed.

Lemma action_loop (n : Z) (params : list param) (data : str) :
  forallb (inRange isActionInt) params = true ->
  wordPerParam (Utility.encodeParam n) data params (Utility.encodeLoop n params data).
Proof.
  revert data. induction params as [|p params IH]; intros data H.
  - exists []. split; [simpl; now rewrite app_nil_r|constructor].
  - simpl in H. apply andb_true_iff in H. destruct H as [Hp Hps].
    destruct (action_param n p Hp) as [w [E [L X]]].
    destruct (IH (data ++ w) Hps) as [ws [O F]].
    exists (w :: ws). cbn [Utility.encodeLoop concat]. rewrite E, O.
    split; [now rewrite app_assoc|]. now constructor.
Qed.

(** The length that one word per parameter adds up to. *)
Lemma wordPerParam_len (enc : param -> option str) (sel : str)
      (params : list param) (out : option str) :
  wordPerParam enc sel params out ->
  exists o, out = Some o /\ len o = len sel + 64 * Z.of_nat (length params).
Proof.
  intros [words [-> F]]. eexists. split; [reflexivity|].
  rewrite len_app. f_equal.
  induction F as [|p w ps ws [_ [L _]] F IH]; [reflexivity|].
  cbn [concat length]. rewrite len_app, IH, L. lia.
Qed.

(** C1, as amended: after the selector, [encodeFunctionCall] and the
    [encodeFunction] action append one word of 64 hexadecimal digits per
    parameter, in parameter order, when every parameter has a static type
    with a value in range; the integer types are uint256, uint and int256
    for [encodeFunctionCall], and every type that starts with uint or int
    for the action.  One address after the selector 0x70a08231 gives 74
    characters: the selector, 24 zeros and the address in lower case. *)
Theorem static_params_one_word_each (sel : str) (pc pa : list param) (a : str) :
  forallb (inRange isCallInt) pc = true ->
  forallb (inRange isActionInt) pa = true ->
  isValidAddress a = true ->
  wordPerParam Utils.encodeParam sel pc (encodeFunctionCall sel pc)
  /\ (exists o, encodeFunctionCall sel pc = Some o
                /\ len o = len sel + 64 * Z.of_nat (length pc))
  /\ wordPerParam (Utility.encodeParam (Z.of_nat (length pa))) sel pa
                  (Utility.encodeFunction sel pa)
  /\ (exists o, Utility.encodeFunction sel pa = Some o
                /\ len o = len sel + 64 * Z.of_nat (length pa))
  /\ encodeFunctionCall (lit "0x70a08231")
                        [{| ptype := lit "address"; pvalue := VStr a |}]
     = Some (lit "0x70a08231" ++ repeat "0"%char 24 ++ toLowerCase (skipn 2 a))
  /\ len (lit "0x70a08231" ++ repeat "0"%char 24 ++ toLowerCase (skipn 2 a)) = 74.
Proof.
  intros Hc Ha Va.
  pose proof (call_loop pc sel Hc) as C.
  pose proof (action_loop (Z.of_nat (length pa)) pa sel Ha) as A.
  split; [exact C|]. split; [exact (wordPerParam_len _ _ _ _ C)|].
  split; [exact A|]. split; [exact (wordPerParam_len _ _ _ _ A)|].
  destruct (address_word a Va) as [E [L _]].
  split.
  - unfold encodeFunctionCall, Utils.encodeLoop, Utils.encodeParam.
    cbn [ptype pvalue str_eqb lit list_ascii_of_string andb Ascii.eqb Bool.eqb toString].
    unfold padAddress. now rewrite sliceFrom_0x, E.
  - rewrite len_app, <- E, L. reflexivity.
Qed.

Lemma static_params_one_word_each_witness :
  encodeFunctionCall (lit "0x70a08231")
    [{| ptype := lit "address";
        pvalue := VStr (lit "0x5C7F8A570d578ED84E63fdFA7b1eE72dEae1AE23") |}]
  = Some (lit "0x70a08231" ++ repeat "0"%char 24
            ++ lit "5c7f8a570d578ed84e63fdfa7b1ee72deae1ae23").
Proof.
  apply (static_params_one_word_each
           (lit "0xa9059cbb")
           [{| ptype := lit "address";
               pvalue := VStr (lit "0x5C7F8A570d578ED84E63fdFA7b1eE72dEae1AE23") |};
            {| ptype := lit "uint256"; pvalue := VStr (lit "1000000") |}]
           [{| ptype := lit "uint8"; pvalue := VStr (lit "18") |};
            {| ptype := lit "bool"; pvalue := VStr (lit "true") |};
            {| ptype := lit "bytes32"; pvalue := VStr (lit "0xabcd") |}]
           (lit "0x5C7F8A570d578ED84E63fdFA7b1eE72dEae1AE23"));
    reflexivity.
Defined.

(** C1, as stated, fails on [encodeFunctionCall]: a uint8 parameter is a
    static integer with a value in range, and nothing is appended for it. *)
Lemma encodeFunctionCall_skips_uint8 :
  inRange isActionInt {| ptype := lit "uint8"; pvalue := VStr (lit "1") |} = true
  /\ encodeFunctionCall (lit "0x70a08231")
                        [{| ptype := lit "uint8"; pvalue := VStr (lit "1") |}]
     = Some (lit "0x70a08231")
  /\ ~ (exists o, encodeFunctionCall (lit "0x70a08231")
                    [{| ptype := lit "uint8"; pvalue := VStr (lit "1") |}] = Some o
                  /\ len o = len (lit "0x70a08231") + 64 * 1).
Proof.
  split; [reflexivity|]. split; [reflexivity|].
  intros [o [E L]]. vm_compute in E. injection E as <-. vm_compute in L. discriminate.
Qed.

(** *** Booleans *)

(** [encodeFunctionCall] goes by the truthiness of the value. *)
Lemma call_bool (v : value) :
  Utils.encodeParam {| ptype := lit "bool"; pvalue := v |}
  = Some (word (if truthy v then 1 else 0)).
Proof.
  unfold Utils.encodeParam. cbn [ptype pvalue].
  now destruct (truthy v).
Qed.

(** The action compares the value with the strings "true" and "1". *)
Lemma action_bool (n : Z) (v : value) :
  Utility.encodeParam n {| ptype := lit "bool"; pvalue := v |}
  = Some (word (if strictEqStr v (lit "true") || strictEqStr v (lit "1")
                then 1 else 0)).
Proof.
  unfold Utility.encodeParam. cbn [ptype pvalue].
  now destruct (strictEqStr v (lit "true") || strictEqStr v (lit "1")).
Qed.

(** C5: [encodeFunctionCall] encodes the strings "false" and "0" as the word
    of 1, where the claim and the [encodeFunction] action give the word
    of 0. *)
Theorem encodeFunctionCall_bool_false :
  encodeFunctionCall (lit "0x70a08231")
                     [{| ptype := lit "bool"; pvalue := VStr (lit "false") |}]
  = Some (lit "0x70a08231" ++ word 1)
  /\ encodeFunctionCall (lit "0x70a08231")
                        [{| ptype := lit "bool"; pvalue := VStr (lit "0") |}]
     = Some (lit "0x70a08231" ++ word 1)
  /\ Utility.encodeFunction (lit "0x70a08231")
                            [{| ptype := lit "bool"; pvalue := VStr (lit "false") |}]
     = Some (lit "0x70a08231" ++ word 0)
  /\ Utility.encodeFunction (lit "0x70a08231")
                            [{| ptype := lit "bool"; pvalue := VStr (lit "0") |}]
     = Some (lit "0x70a08231" ++ word 0).
Proof. repeat split; vm_compute; reflexivity. Qed.

End Encoding.

(** ** Decoding *)

Module Decoding.
Import JS Utils Props JSFacts.

(** *** Strides *)

Lemma stridesFuel_enough (f1 f2 : nat) (s : str) :
  (length s <= f1)%nat -> (length s <= f2)%nat ->
  stridesFuel f1 s = stridesFuel f2 s.
Proof.
  revert f2 s. induction f1 as [|f1 IH]; intros [|f2] [|c s] H1 H2;
    try reflexivity; try (simpl in *; lia).
  cbn [stridesFuel]. f_equal. apply IH; rewrite length_skipn; simpl in *; lia.
Qed.

Lemma strides_cons (s : str) :
  s <> [] -> strides s = firstn 64 s :: strides (skipn 64 s).
Proof.
  intros H. unfold strides. destruct s as [|c s]; [easy|].
  cbn [length stridesFuel]. f_equal.
  apply stridesFuel_enough; rewrite ?length_skipn; simpl; lia.
Qed.

Lemma strides_short (s : str) :
  s <> [] -> (length s <= 64)%nat -> strides s = [s].
Proof.
  intros N L. rewrite strides_cons by assumption.
  now rewrite firstn_all2, skipn_all2 by lia.
Qed.

Lemma stridesFuel_forall (P : ascii -> bool) (f : nat) (s : str) :
  forallb P s = true ->
  Forall (fun c => c <> [] /\ forallb P c = true) (stridesFuel f s).
Proof.
  revert s. induction f as [|f IH]; intros s H; [constructor|].
  cbn [stridesFuel]. destruct s as [|c0 s0] eqn:E; [constructor|]. rewrite <- E in *.
  rewrite <- (firstn_skipn 64 s), forallb_app in H.
  apply andb_true_iff in H. destruct H as [H1 H2].
  constructor; [|now apply IH].
  split; [|exact H1]. rewrite E. discriminate.
Qed.

Lemma strides_forall (P : ascii -> bool) (s : str) :
  forallb P s = true -> Forall (fun c => c <> [] /\ forallb P c = true) (strides s).
Proof. apply stridesFuel_forall. Qed.

Lemma hex_no_terminator (c : ascii) :
  isHexDigit c = true -> Utility.isLineTerminator c = false.
Proof.
  rewrite isHexDigit_code. unfold Utility.isLineTerminator. lia.
Qed.

(** On a text without line terminators the matches of [/.{1,64}/g] are the
    strides. *)
Lemma matchChunks_strides (s cur : str) :
  forallb isHexDigit s = true -> (length cur < 64)%nat ->
  Utility.matchChunks s cur = strides (rev cur ++ s).
Proof.
  revert cur. induction s as [|c s IH]; intros cur H L.
  - rewrite app_nil_r. cbn [Utility.matchChunks Utility.flush].
    destruct cur as [|x cur]; [reflexivity|].
    symmetry. apply strides_short.
    + intros E. apply (f_equal (@length ascii)) in E.
      rewrite length_rev in E. discriminate.
    + rewrite length_rev. lia.
  - cbn [forallb] in H. apply andb_true_iff in H. destruct H as [Hc Hs].
    cbn [Utility.matchChunks]. rewrite hex_no_terminator by assumption.
    assert (A : rev cur ++ c :: s = rev (c :: cur) ++ s)
      by (cbn [rev]; now rewrite <- app_assoc).
    destruct (Nat.eqb_spec (length cur) 63) as [E|N].
    + rewrite IH by (simpl; (assumption || lia)).
      cbn [rev app]. change (rev cur ++ [c]) with (rev (c :: cur)).
      rewrite A, (strides_cons (rev (c :: cur) ++ s)).
      * assert (L64 : length (rev (c :: cur)) = 64%nat)
          by (rewrite length_rev; simpl; lia).
        rewrite firstn_app, skipn_app, L64, Nat.sub_diag.
        rewrite firstn_all2, skipn_all2 by lia.
        cbn [firstn skipn app]. now rewrite app_nil_r.
      * destruct (rev (c :: cur)) eqn:R; [|discriminate].
        apply (f_equal (@length ascii)) in R. rewrite length_rev in R. discriminate.
    + rewrite IH by (simpl; (assumption || lia)). now rewrite A.
Qed.

(** *** Unsigned words *)

Lemma digitsFrom_hex (s : str) (acc : Z) :
  forallb isHexDigit s = true -> exists v, digitsFrom 16 s acc = Some v.
Proof.
  revert acc. induction s as [|c s IH]; intros acc H; [now exists acc|].
  cbn [forallb] in H. apply andb_true_iff in H. destruct H as [Hc Hs].
  cbn [digitsFrom]. unfold isHexDigit in Hc.
  destruct (digitVal 16 c); [now apply IH|discriminate].
Qed.

Lemma decodeUint256_hex (c : str) :
  c <> [] -> forallb isHexDigit c = true ->
  exists v, parseDigits 16 c = Some v
            /\ decodeUint256 (lit "0x" ++ c) = Some (toDigits 10 v).
Proof.
  intros N H. destruct (digitsFrom_hex c 0 H) as [v V].
  assert (PV : parseDigits 16 c = Some v) by (destruct c; [easy|exact V]).
  exists v. split; [exact PV|].
  change decodeUint256 with hexToDecimal.
  now apply Conversions.hexToDecimal_prefixed.
Qed.

Lemma padEnd_nonempty (n : Z) (x : ascii) (c : str) : c <> [] -> padEnd n x c <> [].
Proof. intros N. unfold padEnd. now destruct c. Qed.

(** *** [parseLogData] *)

Lemma parseLogValue_hex (type c : str) :
  c <> [] -> forallb isHexDigit c = true -> exists v, parseLogValue type c = Some v.
Proof.
  intros N H. unfold parseLogValue.
  destruct (str_eqb type (lit "address")); [eauto|].
  destruct (startsWith (lit "uint") type || startsWith (lit "int") type); [|eauto].
  destruct (decodeUint256_hex c N H) as [v [_ E]]. eauto.
Qed.

Lemma parseLogLoop_strides (cleanData : str) (types : list str) (k : nat) :
  parseLogLoop cleanData types (Z.of_nat k)
  = allSome (map (fun tc => parseLogValue (fst tc) (snd tc))
                 (combine types (strides (skipn (64 * k) cleanData)))).
Proof.
  revert k. induction types as [|t types IH]; intros k; [reflexivity|].
  cbn [parseLogLoop].
  rewrite slice_nonneg by lia.
  replace (Z.to_nat ((Z.of_nat k + 1) * 64 - Z.of_nat k * 64)) with 64%nat by lia.
  replace (Z.to_nat (Z.of_nat k * 64)) with (64 * k)%nat by lia.
  replace (Z.of_nat k + 1) with (Z.of_nat (S k)) by lia. rewrite IH.
  replace (skipn (64 * S k) cleanData) with (skipn 64 (skipn (64 * k) cleanData))
    by (rewrite skipn_skipn; f_equal; lia).
  destruct (skipn (64 * k) cleanData) as [|c r]; [reflexivity|].
  rewrite (strides_cons (c :: r)) by discriminate.
  cbn [combine map allSome fst snd].
  change (firstn 64 (c :: r)) with (c :: firstn 63 r). reflexivity.
Qed.

Lemma parseLogData_strides (data : str) (types : list str) :
  parseLogData data types
  = allSome (map (fun tc => parseLogValue (fst tc) (snd tc))
                 (combine types (strides (replaceFirst (lit "0x") [] data)))).
Proof.
  unfold parseLogData. destruct data as [|c0 d0] eqn:E.
  - now rewrite combine_nil.
  - rewrite <- E. destruct (str_eqb data (lit "0x")) eqn:X.
    + apply str_eqb_eq in X. rewrite X. now rewrite combine_nil.
    + apply (parseLogLoop_strides _ types 0).
Qed.

Lemma allSome_map {A B : Type} (f : A -> option B) (l : list A) :
  Forall (fun x => exists y, f x = Some y) l ->
  exists out, allSome (map f l) = Some out /\ length out = length l.
Proof.
  induction 1 as [|x l [y Hy] _ [out [E L]]].
  - now exists [].
  - exists (y :: out). cbn [map allSome]. rewrite Hy, E. split; [reflexivity|].
    simpl. now rewrite L.
Qed.

(** *** The [decodeData] action *)

Lemma decodeChunk_hex (types : list str) (i : nat) (c : str) :
  c <> [] -> forallb isHexDigit c = true ->
  exists d,
    Utility.decodeChunk types i c = Some d
    /\ Utility.raw d = lit "0x" ++ padEnd 64 "0" c
    /\ ((length types <= i)%nat ->
        exists v, parseDigits 16 (padEnd 64 "0" c) = Some v
                  /\ Utility.dvalue d = toDigits 10 v).
Proof.
  intros N H.
  destruct (decodeUint256_hex (padEnd 64 "0" c)) as [v [PV E]];
    [now apply padEnd_nonempty|now apply Encoding.padEnd_hex|].
  unfold Utility.decodeChunk.
  destruct (le_lt_dec (length types) i) as [L|L].
  - rewrite nth_overflow by assumption.
    change (str_eqb (lit "unknown") (lit "address")) with false.
    change (startsWith (lit "uint") (lit "unknown")
            || startsWith (lit "int") (lit "unknown")) with false.
    change (str_eqb (lit "unknown") (lit "bool")) with false.
    change (str_eqb (lit "unknown") (lit "bytes32")) with false.
    cbv iota. rewrite E. eexists. split; [reflexivity|]. split; [reflexivity|].
    intros _. now exists v.
  - match goal with |- context [str_eqb ?t (lit "address")] => generalize t end.
    intros type. cbv zeta.
    destruct (str_eqb type (lit "address"));
      [|destruct (startsWith (lit "uint") type || startsWith (lit "int") type);
        [|destruct (str_eqb type (lit "bool"));
          [|destruct (str_eqb type (lit "bytes32"))]]];
      rewrite ?E; (eexists; split; [reflexivity|]; split; [reflexivity|]; lia).
Qed.

Lemma decodeLoop_allSome (types : list str) (chunks : list str) (i : nat) :
  Utility.decodeLoop types chunks i
  = allSome (map (fun ic => Utility.decodeChunk types (fst ic) (snd ic))
                 (combine (seq i (length chunks)) chunks)).
Proof.
  revert i. induction chunks as [|c chunks IH]; intros i; [reflexivity|].
  cbn [Utility.decodeLoop length seq combine map allSome fst snd].
  now rewrite IH.
Qed.

Lemma decodeLoop_hex (types : list str) (chunks : list str) (i : nat) :
  Forall (fun c => c <> [] /\ forallb isHexDigit c = true) chunks ->
  exists out,
    Utility.decodeLoop types chunks i = Some out
    /\ map Utility.raw out = map (fun c => lit "0x" ++ padEnd 64 "0" c) chunks
    /\ (forall j d, nth_error out j = Some d -> (length types <= i + j)%nat ->
          exists v, parseDigits 16 (skipn 2 (Utility.raw d)) = Some v
                    /\ Utility.dvalue d = toDigits 10 v).
Proof.
  intros F. revert i. induction F as [|c chunks [N H] _ IH]; intros i.
  - exists []. split; [reflexivity|]. split; [reflexivity|].
    intros [|j] d; discriminate.
  - destruct (decodeChunk_hex types i c N H) as [d [E [R U]]].
    destruct (IH (S i)) as [out [O [M V]]].
    exists (d :: out). cbn [Utility.decodeLoop]. rewrite E, O.
    split; [reflexivity|]. split; [cbn [map]; now rewrite R, M|].
    intros [|j] d'; cbn [nth_error].
    + intros [= <-] L. rewrite R. change (skipn 2 (lit "0x" ++ padEnd 64 "0" c))
        with (padEnd 64 "0" c). apply U. lia.
    + intros D L. apply (V j d' D). lia.
Qed.

Lemma paramData_hex (data : str) :
  forallb isHexDigit (replaceFirst (lit "0x") [] data) = true ->
  forallb isHexDigit (Utility.paramData data) = true.
Proof.
  intros H. unfold Utility.paramData.
  destruct (8 <=? len (replaceFirst (lit "0x") [] data)); [|exact H].
  rewrite sliceFrom_nonneg by lia.
  rewrite <- (firstn_skipn (Z.to_nat 8) (replaceFirst (lit "0x") [] data)) in H.
  rewrite forallb_app in H. now apply andb_true_iff in H.
Qed.

(** C2, as amended.  On a blob of hexadecimal digits, the [decodeData]
    action walks the text after the selector in consecutive strides of 64
    characters, in order; every stride gives a value, the last one padded on
    the right with zeros, decoded by the type at its position and as an
    unsigned integer past the declared types.  [parseLogData] reads the
    stride at the position of each declared type as it is, without padding,
    and gives no value for the strides past the declared types. *)
Theorem decode_strides (data : str) (types : list str) :
  forallb isHexDigit (replaceFirst (lit "0x") [] data) = true ->
  (exists out,
      Utility.decodeData data types = Some out
      /\ Utility.decodeData data types
         = allSome (map (fun ic => Utility.decodeChunk types (fst ic) (snd ic))
                        (combine (seq 0 (length (strides (Utility.paramData data))))
                                 (strides (Utility.paramData data))))
      /\ map Utility.raw out
         = map (fun c => lit "0x" ++ padEnd 64 "0" c) (strides (Utility.paramData data))
      /\ (forall i d, nth_error out i = Some d -> (length types <= i)%nat ->
            exists v, parseDigits 16 (skipn 2 (Utility.raw d)) = Some v
                      /\ Utility.dvalue d = toDigits 10 v))
  /\ (exists out,
        parseLogData data types = Some out
        /\ parseLogData data types
           = allSome (map (fun tc => parseLogValue (fst tc) (snd tc))
                          (combine types (strides (replaceFirst (lit "0x") [] data))))
        /\ length out
           = Nat.min (length types)
                     (length (strides (replaceFirst (lit "0x") [] data)))).
Proof.
  intros H. split.
  - pose proof (paramData_hex data H) as HP.
    assert (M : Utility.matchChunks (Utility.paramData data) []
                = strides (Utility.paramData data))
      by (apply (matchChunks_strides _ []); [assumption|simpl; lia]).
    destruct (decodeLoop_hex types (strides (Utility.paramData data)) 0
                             (strides_forall _ _ HP)) as [out [O [R U]]].
    exists out. unfold Utility.decodeData. rewrite M.
    split; [exact O|]. split; [apply decodeLoop_allSome|]. split; [exact R|exact U].
  - rewrite parseLogData_strides.
    destruct (allSome_map (fun tc => parseLogValue (fst tc) (snd tc))
                (combine types (strides (replaceFirst (lit "0x") [] data))))
      as [out [E L]].
    + apply Forall_forall. intros [t c] I. apply in_combine_r in I.
      pose proof (strides_forall _ _ H) as F. rewrite Forall_forall in F.
      destruct (F c I) as [N X]. now apply parseLogValue_hex.
    + exists out. split; [exact E|]. split; [reflexivity|].
      now rewrite L, length_combine.
Qed.

Lemma decode_strides_witness :
  exists out,
    Utility.decodeData
      (lit "0xa9059cbb0000000000000000000000005c7f8a570d578ed84e63fdfa7b1ee72deae1ae230001")
      [lit "address"] = Some out.
Proof.
  destruct (decode_strides
    (lit "0xa9059cbb0000000000000000000000005c7f8a570d578ed84e63fdfa7b1ee72deae1ae230001")
    [lit "address"] eq_refl) as [[out [E _]] _].
  exists out. exact E.
Defined.

(** C2, as stated, fails on [parseLogData]: a trailing short word is read
    without padding ("01" as 1, not as the padded word), and a word past
    the declared types is dropped. *)
Lemma parseLogData_not_padded :
  parseLogData (lit "0x01") [lit "uint256"] <> decodeWords (lit "01") [lit "uint256"]
  /\ parseLogData (lit "0x01") [lit "uint256"] = Some [lit "1"]
  /\ decodeWords (lit "01") [lit "uint256"] = Some [toDigits 10 (16 ^ 62)]
  /\ parseLogData (lit "0x" ++ word 5) [] = Some []
  /\ decodeWords (word 5) [] = Some [lit "5"].
Proof.
  split; [vm_compute; discriminate|]. repeat split; vm_compute; reflexivity.
Qed.

End Decoding.

(** ** Single dynamic strings *)

Module Strings.
Import JS Utils Props JSFacts.





Lemma skipn_hex (k : nat) (s : str) :
  forallb isHexDigit s = true -> forallb isHexDigit (skipn k s) = true.
Proof.
  intros H. rewrite <- (firstn_skipn k s), forallb_app in H.
  now apply andb_true_iff in H.
Qed.



(** *** [decodeString] *)





Section SingleString.

Variable utf8 : list Z -> str.

(** The guards the NFT and token actions put before their decodes. *)
Lemma guards (h : str) :
  128 <= len h ->
  negb (str_eqb (lit "0x" ++ h) []) && negb (str_eqb (lit "0x" ++ h) (lit "0x"))
  && (2 <? len (lit "0x" ++ h)) = true.
Proof.
  intros L. rewrite len_app. change (len (lit "0x")) with 2.
  replace (2 <? 2 + len h) with true by lia.
  destruct h; [unfold len in L; simpl in L; lia|reflexivity].
Qed.


End SingleString.



End Strings.

(** ** The repository's test vectors *)

Module TestVectors.
Import JS Utils.

Example weiToCro_one : weiToCro (VStr (lit "1000000000000000000")) CRO_DECIMALS = Some (lit "1").
Proof. vm_compute. reflexivity. Qed.

Example weiToCro_half : weiToCro (VStr (lit "500000000000000000")) CRO_DECIMALS = Some (lit "0.5").
Proof. vm_compute. reflexivity. Qed.

Example weiToCro_zero : weiToCro (VStr (lit "0")) CRO_DECIMALS = Some (lit "0").
Proof. vm_compute. reflexivity. Qed.

Example weiToCro_thousand :
  weiToCro (VStr (lit "1000000000000000000000")) CRO_DECIMALS = Some (lit "1000").
Proof. vm_compute. reflexivity. Qed.

Example weiToCro_six_decimals : weiToCro (VStr (lit "1000000")) 6 = Some (lit "1").
Proof. vm_compute. reflexivity. Qed.

Example croToWei_one : croToWei (VStr (lit "1")) CRO_DECIMALS = Some (lit "1000000000000000000").
Proof. vm_compute. reflexivity. Qed.

Example croToWei_half : croToWei (VStr (lit "0.5")) CRO_DECIMALS = Some (lit "500000000000000000").
Proof. vm_compute. reflexivity. Qed.

Example croToWei_six_decimals : croToWei (VStr (lit "1")) 6 = Some (lit "1000000").
Proof. vm_compute. reflexivity. Qed.

Example hexToDecimal_0x0 : hexToDecimal (lit "0x0") = Some (lit "0").
Proof. vm_compute. reflexivity. Qed.

Example decimalToHex_16 : decimalToHex (VStr (lit "16")) = Some (lit "0x10").
Proof. vm_compute. reflexivity. Qed.

Example decimalToHex_255 : decimalToHex (VStr (lit "255")) = Some (lit "0xff").
Proof. vm_compute. reflexivity. Qed.

Example decimalToHex_0 : decimalToHex (VStr (lit "0")) = Some (lit "0x0").
Proof. vm_compute. reflexivity. Qed.

Example decimalToHex_number : decimalToHex (VNum 16) = Some (lit "0x10").
Proof. vm_compute. reflexivity. Qed.

Example isValidAddress_wcro :
  isValidAddress (lit "0x5C7F8A570d578ED84E63fdFA7b1eE72dEae1AE23") = true.
Proof. vm_compute. reflexivity. Qed.

Example isValidAddress_short : isValidAddress (lit "0x123") = false.
Proof. vm_compute. reflexivity. Qed.

Example isValidAddress_empty : isValidAddress (lit "") = false.
Proof. vm_compute. reflexivity. Qed.

Example isValidAddress_unprefixed :
  isValidAddress (lit "5C7F8A570d578ED84E63fdFA7b1eE72dEae1AE23") = false.
Proof. vm_compute. reflexivity. Qed.

Example isValidTxHash_ok :
  isValidTxHash (lit "0x1234567890abcdef1234567890abcdef1234567890abcdef1234567890abcdef")
  = true.
Proof. vm_compute. reflexivity. Qed.

Example decodeUint256_0x10 : decodeUint256 (lit "0x10") = Some (lit "16").
Proof. vm_compute. reflexivity. Qed.

Example decodeAddress_word :
  decodeAddress (lit "0x0000000000000000000000005c7f8a570d578ed84e63fdfa7b1ee72deae1ae23")
  = lit "0x5c7f8a570d578ed84e63fdfa7b1ee72deae1ae23".
Proof. vm_compute. reflexivity. Qed.

End TestVectors.

(** ** More facts about digits and texts *)

Module MoreFacts.
Import JS Utils Props JSFacts.

Lemma digitVal_zero_any (radix : Z) : 0 < radix -> digitVal radix "0" = Some 0.
Proof.
  intros H. unfold digitVal. change (code "0") with 48. simpl.
  now replace (0 <? radix) with true by lia.
Qed.

Lemma digitsFrom_leading_zeros (radix : Z) (k : nat) (s : str) :
  0 < radix ->
  digitsFrom radix (repeat "0"%char k ++ s) 0 = digitsFrom radix s 0.
Proof.
  intros H. induction k as [|k IH]; [reflexivity|].
  cbn [repeat app digitsFrom]. now rewrite digitVal_zero_any by assumption.
Qed.

(** A text of digits is worth less than the radix to the power of its
    length. *)
Lemma digitsFrom_below (radix : Z) (s : str) (v : Z) :
  2 <= radix ->
  digitsFrom radix s 0 = Some v -> 0 <= v < radix ^ len s.
Proof.
  intros Hr. revert v. induction s as [|c s IH] using rev_ind; intros v.
  - simpl. intros [= <-]. unfold len. simpl. lia.
  - rewrite digitsFrom_app. destruct (digitsFrom radix s 0) as [x|] eqn:E;
      [|discriminate].
    simpl. destruct (digitVal radix c) as [d|] eqn:D; [|discriminate].
    intros [= <-]. apply digitVal_range in D; [|lia].
    specialize (IH x eq_refl). rewrite len_app.
    replace (len [c]) with 1 by reflexivity.
    rewrite Z.pow_add_r by (try apply len_nonneg; lia).
    rewrite Z.pow_1_r. nia.
Qed.

Lemma toLowerCase_twice (s : str) : toLowerCase (toLowerCase s) = toLowerCase s.
Proof.
  unfold toLowerCase. rewrite map_map. apply map_ext. intros c.
  assert (I : forall a b : ascii, code a = code b -> a = b).
  { unfold code. intros a b H.
    rewrite <- (ascii_nat_embedding a), <- (ascii_nat_embedding b).
    f_equal. lia. }
  apply I. rewrite (code_lowerChar (lowerChar c)), code_lowerChar.
  destruct (((65 <=? code c) && (code c <=? 90))
            || ((192 <=? code c) && (code c <=? 222) && negb (code c =? 215))) eqn:E.
  - replace (((65 <=? code c + 32) && (code c + 32 <=? 90))
             || ((192 <=? code c + 32) && (code c + 32 <=? 222)
                 && negb (code c + 32 =? 215))) with false by lia.
    reflexivity.
  - now rewrite E.
Qed.

Lemma toLowerCase_app (a b : str) :
  toLowerCase (a ++ b) = toLowerCase a ++ toLowerCase b.
Proof. apply map_app. Qed.

Lemma toLowerCase_skipn (k : nat) (s : str) :
  toLowerCase (skipn k s) = skipn k (toLowerCase s).
Proof. unfold toLowerCase. symmetry. apply skipn_map. Qed.

Lemma toLowerCase_zeros (k : nat) :
  toLowerCase (repeat "0"%char k) = repeat "0"%char k.
Proof. induction k as [|k IH]; [reflexivity|]. simpl. f_equal. exact IH. Qed.

(** On anything behind a 0x prefix [decodeAddress] keeps the last 40
    characters, in lower case. *)
Lemma decodeAddress_0x (t : str) :
  t <> [] ->
  decodeAddress (lit "0x" ++ t) = lit "0x" ++ toLowerCase (skipn (length t - 40) t).
Proof.
  intros N. unfold decodeAddress.
  change (lit "0x" ++ t) with ("0"%char :: "x"%char :: t).
  replace (str_eqb ("0"%char :: "x"%char :: t) (lit "0x")) with false
    by (destruct t; [easy|reflexivity]).
  change ("0"%char :: "x"%char :: t) with (lit "0x" ++ t).
  rewrite replaceFirst_prefix. now rewrite sliceFrom_last by lia.
Qed.

Lemma replaceFirst_nonempty (p s : str) :
  p <> [] -> s <> [] -> s <> p -> replaceFirst p [] s <> [].
Proof.
  intros Hp Hs Hn. destruct s as [|c s]; [easy|].
  cbn [replaceFirst]. destruct (startsWith p (c :: s)) eqn:E; [|discriminate].
  apply startsWith_spec in E. cbn [app]. intros Z0.
  rewrite Z0, app_nil_r in E. now apply Hn.
Qed.

End MoreFacts.

(** ** Words, addresses and fees *)

Module Words.
Import JS Utils UtilsRest Props JSFacts MoreFacts.

(** X1: the word of a non-negative integer decodes to the integer. *)
Theorem decodeUint256_padNumber (num : value) (n : Z) :
  BigInt num = Some n -> 0 <= n ->
  andThen (padNumber num) decodeUint256 = Some (toDigits 10 n).
Proof.
  intros B Hn. unfold padNumber. rewrite B. cbn [option_map andThen].
  change decodeUint256 with hexToDecimal.
  rewrite BigInt_toString_nonneg by assumption.
  assert (H : forallb isHexDigit (padStart 64 "0" (toDigits 16 n)) = true)
    by now apply Encoding.padStart_hex, toDigits_hex.
  apply Conversions.hexToDecimal_prefixed; [exact H|].
  unfold parseDigits, padStart.
  destruct (repeat "0"%char (Z.to_nat (64 - len (toDigits 16 n))) ++ toDigits 16 n)
    as [|c r] eqn:E.
  - apply app_eq_nil in E. destruct E as [_ E]. now apply toDigits_nonempty in E.
  - rewrite <- E, digitsFrom_leading_zeros by lia. apply toDigits_value; lia.
Qed.

Lemma decodeUint256_padNumber_witness :
  andThen (padNumber (VStr (lit "255"))) decodeUint256 = Some (toDigits 10 255).
Proof.
  apply (decodeUint256_padNumber (VStr (lit "255")) 255); [reflexivity|lia].
Defined.

(** X2: [padNumber] gives a 32-byte word, 0x and 64 hexadecimal digits,
    exactly for the integers below 2^256; a larger one is not cut. *)
Theorem padNumber_word (num : value) (n : Z) :
  BigInt num = Some n -> 0 <= n ->
  exists w, padNumber num = Some w /\ (isPrefixedHex 64 w = true <-> n < 2 ^ 256).
Proof.
  intros B Hn. unfold padNumber. rewrite B. cbn [option_map].
  eexists. split; [reflexivity|].
  rewrite BigInt_toString_nonneg by assumption.
  unfold isPrefixedHex. rewrite startsWith_app, len_app.
  change (len (lit "0x")) with 2.
  change (skipn 2 (lit "0x" ++ padStart 64 "0" (toDigits 16 n)))
    with (padStart 64 "0" (toDigits 16 n)).
  rewrite Encoding.padStart_hex by now apply toDigits_hex.
  rewrite andb_true_r. cbn [andb]. rewrite Z.eqb_eq.
  split.
  - intros L.
    assert (L64 : len (toDigits 16 n) <= 64).
    { unfold padStart in L. rewrite len_app in L. unfold len in *.
      rewrite repeat_length in L. lia. }
    pose proof (digitsFrom_below 16 _ n ltac:(lia)
                  (toDigits_value 16 ltac:(lia) ltac:(lia) n Hn)) as Bd.
    apply Z.lt_le_trans with (16 ^ len (toDigits 16 n)); [lia|].
    change (2 ^ 256) with (16 ^ 64).
    apply Z.pow_le_mono_r; [lia|exact L64].
  - intros L. rewrite length_padStart; [lia|].
    apply len_toDigits; lia.
Qed.

Lemma padNumber_word_witness :
  exists w, padNumber (VNum 255) = Some w
            /\ (isPrefixedHex 64 w = true <-> 255 < 2 ^ 256).
Proof. apply (padNumber_word (VNum 255) 255); [reflexivity|lia]. Defined.

(** X3: padding a valid address to a word and decoding the word gives the
    address back, in lower case. *)
Theorem decodeAddress_padAddress (a : str) :
  isValidAddress a = true -> decodeAddress (padAddress a) = toLowerCase a.
Proof.
  intros V. unfold padAddress.
  destruct (Encoding.address_word a V) as [E [L _]].
  destruct (Encoding.isValidAddress_split a V) as [h [-> [Lh Hh]]].
  rewrite E, decodeAddress_0x by (intros C; discriminate C).
  change (skipn 2 (lit "0x" ++ h)) with h.
  rewrite length_app, repeat_length, length_toLowerCase.
  replace (24 + length h - 40)%nat with 24%nat by (unfold len in Lh; lia).
  rewrite skipn_app, repeat_length, Nat.sub_diag.
  rewrite skipn_all2 by (rewrite repeat_length; lia).
  cbn [skipn app]. now rewrite toLowerCase_twice.
Qed.

Lemma decodeAddress_padAddress_witness :
  decodeAddress (padAddress (lit "0x5C7F8A570d578ED84E63fdFA7b1eE72dEae1AE23"))
  = toLowerCase (lit "0x5C7F8A570d578ED84E63fdFA7b1eE72dEae1AE23").
Proof.
  apply (decodeAddress_padAddress (lit "0x5C7F8A570d578ED84E63fdFA7b1eE72dEae1AE23")).
  reflexivity.
Defined.

(** X4: on a text of Latin-1 characters, which are the texts of this
    development and those on which lower-casing gives one character for
    each, decoding an address twice is decoding it once.  (The lower case
    of a character beyond Latin-1 can be longer than the character, as for
    U+0130; such texts are left out.) *)
Theorem decodeAddress_idempotent (hex : str) :
  decodeAddress (decodeAddress hex) = decodeAddress hex.
Proof.
  destruct hex as [|c hex'] eqn:E; [reflexivity|].
  rewrite <- E. destruct (str_eqb hex (lit "0x")) eqn:X;
    [apply str_eqb_eq in X; rewrite X; reflexivity|].
  assert (D : decodeAddress hex
              = lit "0x" ++ toLowerCase (sliceFrom (replaceFirst (lit "0x") [] hex) (-40))).
  { unfold decodeAddress. rewrite X. clear X. now destruct hex. }
  rewrite D.
  set (t := toLowerCase (sliceFrom (replaceFirst (lit "0x") [] hex) (-40))).
  assert (N : t <> []).
  { unfold t. rewrite sliceFrom_last by lia. intros C.
    apply (f_equal (@length ascii)) in C.
    rewrite length_toLowerCase, length_skipn in C.
    assert (R : replaceFirst (lit "0x") [] hex <> []).
    { apply replaceFirst_nonempty; [discriminate|rewrite E; discriminate|].
      intros H. rewrite H in X. discriminate X. }
    change (Z.to_nat (- -40)) with 40%nat in C.
    destruct (replaceFirst (lit "0x") [] hex); [easy|].
    cbn [length] in C. lia. }
  assert (L : (length t <= 40)%nat).
  { unfold t. rewrite sliceFrom_last by lia.
    rewrite length_toLowerCase, length_skipn.
    change (Z.to_nat (- -40)) with 40%nat. lia. }
  rewrite decodeAddress_0x by assumption.
  replace (length t - 40)%nat with 0%nat by lia. cbn [skipn].
  unfold t. now rewrite toLowerCase_twice.
Qed.

(** X5: a word of 40 hexadecimal digits or more, with or without the 0x
    prefix, always decodes to a valid address. *)
Theorem decodeAddress_valid (h : str) :
  forallb isHexDigit h = true -> 40 <= len h ->
  isValidAddress (decodeAddress (lit "0x" ++ h)) = true
  /\ isValidAddress (decodeAddress h) = true.
Proof.
  intros H L.
  assert (N : h <> []) by (intros ->; unfold len in L; simpl in L; lia).
  assert (V : isValidAddress (lit "0x" ++ toLowerCase (skipn (length h - 40) h)) = true).
  { unfold isValidAddress, isPrefixedHex. rewrite startsWith_app, len_app.
    change (len (lit "0x")) with 2.
    change (skipn 2 (lit "0x" ++ toLowerCase (skipn (length h - 40) h)))
      with (toLowerCase (skipn (length h - 40) h)).
    rewrite toLowerCase_hex by now apply Strings.skipn_hex.
    rewrite andb_true_r. cbn [andb]. apply Z.eqb_eq.
    unfold len in *. rewrite length_toLowerCase, length_skipn. lia. }
  split.
  - now rewrite decodeAddress_0x.
  - unfold decodeAddress. destruct h as [|c h'] eqn:E; [easy|]. rewrite <- E in *.
    rewrite str_eqb_neq by (intros ->; discriminate).
    rewrite replaceFirst_0x_hex by assumption.
    now rewrite sliceFrom_last by lia.
Qed.

Lemma decodeAddress_valid_witness :
  isValidAddress (decodeAddress
    (lit "0x0000000000000000000000005C7F8A570d578ED84E63fdFA7b1eE72dEae1AE23")) = true.
Proof.
  apply (decodeAddress_valid
    (lit "0000000000000000000000005C7F8A570d578ED84E63fdFA7b1eE72dEae1AE23"));
    [reflexivity|apply Z.leb_le; reflexivity].
Defined.

End Words.

(** ** Transaction values, gas prices and fees *)

Module Fees.
Import JS Utils UtilsRest Props JSFacts MoreFacts.

Lemma parseDigits_nonneg (radix : Z) (s : str) (v : Z) :
  2 <= radix <= 36 -> parseDigits radix s = Some v -> s <> [] /\ 0 <= v.
Proof.
  intros Hr P. destruct s as [|c s]; [discriminate|]. split; [discriminate|].
  unfold parseDigits in P.
  eapply digitsFrom_nonneg with (radix := radix) (acc := 0); [lia|lia|lia|exact P].
Qed.

(** A hexadecimal quantity, read and converted exactly. *)
Lemma quantity_exact (h : str) (v d : Z) :
  forallb isHexDigit h = true -> parseDigits 16 h = Some v -> 0 <= d <= 22 ->
  andThen (hexToDecimal (lit "0x" ++ h)) (fun w => weiToCro (VStr w) d)
  = Some (weiToHuman v d).
Proof.
  intros H P D. destruct (parseDigits_nonneg 16 h v ltac:(lia) P) as [_ Hv].
  rewrite (Conversions.hexToDecimal_prefixed h v H P). cbn [andThen].
  now destruct (Units.weiToCro_exact_upto_22 v d Hv D) as [-> _].
Qed.

Lemma weiToHuman_zero (d : Z) : weiToHuman 0 d = lit "0".
Proof. unfold weiToHuman. now rewrite Zmod_0_l, Zdiv_0_l. Qed.

(** X6: a missing, empty, "0x" or "0x0" transaction value is "0" and never
    throws; any other hexadecimal quantity comes out as its exact amount at
    up to 22 decimals. *)
Theorem parseTransactionValue_exact (h : str) (v d : Z) :
  forallb isHexDigit h = true -> parseDigits 16 h = Some v -> 0 <= d <= 22 ->
  parseTransactionValue (Some (lit "0x" ++ h)) d = Some (weiToHuman v d)
  /\ parseTransactionValue None d = Some (lit "0")
  /\ parseTransactionValue (Some []) d = Some (lit "0")
  /\ parseTransactionValue (Some (lit "0x")) d = Some (lit "0").
Proof.
  intros H P D. split; [|repeat split].
  destruct (parseDigits_nonneg 16 h v ltac:(lia) P) as [N Hv].
  unfold parseTransactionValue.
  change (lit "0x" ++ h) with ("0"%char :: "x"%char :: h).
  replace (str_eqb ("0"%char :: "x"%char :: h) (lit "0x")) with false
    by (destruct h; [easy|reflexivity]).
  cbn [orb].
  destruct (str_eqb ("0"%char :: "x"%char :: h) (lit "0x0")) eqn:E.
  - apply str_eqb_eq in E. injection E as ->. injection P as <-.
    now rewrite weiToHuman_zero.
  - now apply quantity_exact.
Qed.

Lemma parseTransactionValue_exact_witness :
  parseTransactionValue (Some (lit "0x" ++ lit "de0b6b3a7640000")) 18
  = Some (weiToHuman 1000000000000000000 18).
Proof.
  apply (parseTransactionValue_exact (lit "de0b6b3a7640000") 1000000000000000000 18);
    [reflexivity|reflexivity|lia].
Defined.

(** X7: a gas price given as a hexadecimal quantity comes out as its exact
    amount in Gwei (9 decimals); the empty text and "0x" give "0". *)
Theorem formatGasPrice_exact (h : str) (v : Z) :
  forallb isHexDigit h = true -> parseDigits 16 h = Some v ->
  formatGasPrice (lit "0x" ++ h) = Some (weiToHuman v 9)
  /\ formatGasPrice [] = Some (lit "0")
  /\ formatGasPrice (lit "0x") = Some (lit "0").
Proof.
  intros H P. split; [|split; vm_compute; reflexivity].
  unfold formatGasPrice. apply quantity_exact; (assumption || lia).
Qed.

Lemma formatGasPrice_exact_witness :
  formatGasPrice (lit "0x" ++ lit "3b9aca00") = Some (weiToHuman 1000000000 9).
Proof.
  apply (formatGasPrice_exact (lit "3b9aca00") 1000000000); reflexivity.
Defined.

(** X8: the fee is the exact product of the gas used and the gas price,
    shown at 18 decimals, and does not depend on the order of the two. *)
Theorem calculateTxFee_exact (h1 h2 : str) (v1 v2 : Z) :
  forallb isHexDigit h1 = true -> parseDigits 16 h1 = Some v1 ->
  forallb isHexDigit h2 = true -> parseDigits 16 h2 = Some v2 ->
  calculateTxFee (lit "0x" ++ h1) (lit "0x" ++ h2) = Some (weiToHuman (v1 * v2) 18)
  /\ calculateTxFee (lit "0x" ++ h2) (lit "0x" ++ h1)
     = calculateTxFee (lit "0x" ++ h1) (lit "0x" ++ h2).
Proof.
  intros H1 P1 H2 P2.
  destruct (parseDigits_nonneg 16 h1 v1 ltac:(lia) P1) as [_ N1].
  destruct (parseDigits_nonneg 16 h2 v2 ltac:(lia) P2) as [_ N2].
  assert (F : forall a b ha hb,
             forallb isHexDigit ha = true -> parseDigits 16 ha = Some a -> 0 <= a ->
             forallb isHexDigit hb = true -> parseDigits 16 hb = Some b -> 0 <= b ->
             calculateTxFee (lit "0x" ++ ha) (lit "0x" ++ hb)
             = Some (weiToHuman (a * b) 18)).
  { intros a b ha hb Ha Pa Na Hb Pb Nb. unfold calculateTxFee.
    rewrite (Conversions.hexToDecimal_prefixed ha a Ha Pa),
            (Conversions.hexToDecimal_prefixed hb b Hb Pb).
    cbn [andThen].
    rewrite <- !(BigInt_toString_nonneg 10) by assumption.
    rewrite !BigInt_ofString_toString by assumption. cbn [andThen].
    rewrite BigInt_toString_nonneg by nia. unfold CRO_DECIMALS.
    now destruct (Units.weiToCro_exact_upto_22 (a * b) 18 ltac:(nia) ltac:(lia))
      as [-> _]. }
  split.
  - now apply F.
  - rewrite (F v1 v2 h1 h2), (F v2 v1 h2 h1) by assumption.
    now rewrite Z.mul_comm.
Qed.

Lemma calculateTxFee_exact_witness :
  calculateTxFee (lit "0x" ++ lit "5208") (lit "0x" ++ lit "3b9aca00")
  = Some (weiToHuman (21000 * 1000000000) 18).
Proof.
  apply (calculateTxFee_exact (lit "5208") (lit "3b9aca00") 21000 1000000000);
    reflexivity.
Defined.

(** X9: [truncateAddress] keeps the first six and the last four characters
    around three dots: thirteen characters for any text of ten or more, and
    never fewer characters than a shorter, non-empty text had. *)
Theorem truncateAddress_shape (address : str) :
  address <> [] ->
  truncateAddress address
  = firstn 6 address ++ lit "..." ++ skipn (length address - 4) address
  /\ len (truncateAddress address)
     = Z.min (len address) 6 + 3 + Z.min (len address) 4
  /\ (10 <= len address -> len (truncateAddress address) = 13)
  /\ (len address < 10 -> len address < len (truncateAddress address)).
Proof.
  intros N.
  assert (E : truncateAddress address
              = firstn 6 address ++ lit "..." ++ skipn (length address - 4) address).
  { unfold truncateAddress. destruct address as [|c a] eqn:X; [easy|].
    rewrite <- X. rewrite slice_nonneg by lia. rewrite sliceFrom_last by lia.
    reflexivity. }
  assert (L : len (truncateAddress address)
              = Z.min (len address) 6 + 3 + Z.min (len address) 4).
  { rewrite E, !len_app. unfold len.
    rewrite length_firstn, length_skipn. simpl length. lia. }
  assert (P : 0 < len address)
    by (destruct address; [easy|unfold len; simpl; lia]).
  repeat split; try assumption; lia.
Qed.

Lemma truncateAddress_shape_witness :
  truncateAddress (lit "0x5C7F8A570d578ED84E63fdFA7b1eE72dEae1AE23")
  = lit "0x5C7F...AE23".
Proof.
  apply (truncateAddress_shape (lit "0x5C7F8A570d578ED84E63fdFA7b1eE72dEae1AE23")).
  discriminate.
Defined.

End Fees.

(** ** From amounts to Wei *)

Module Amounts.
Import JS Utils UtilsRest Props JSFacts MoreFacts.

Lemma digitsFrom_defined (radix : Z) (s : str) (acc w : Z) :
  2 <= radix <= 36 ->
  digitsFrom radix s acc = Some w -> exists v, digitsFrom radix s 0 = Some v.
Proof.
  intros Hr. revert acc w. induction s as [|c s IH]; intros acc w H.
  - now exists 0.
  - cbn [digitsFrom] in *. destruct (digitVal radix c) as [d|]; [|discriminate].
    destruct (IH _ _ H) as [v V]. eexists.
    apply (digitsFrom_acc radix s (0 * radix + d) v V).
Qed.

(** The value of a text of digits, split in two. *)
Lemma digitsFrom_split (radix : Z) (a b : str) (v : Z) :
  2 <= radix <= 36 ->
  digitsFrom radix (a ++ b) 0 = Some v ->
  exists va vb, digitsFrom radix a 0 = Some va /\ digitsFrom radix b 0 = Some vb
                /\ v = va * radix ^ len b + vb /\ 0 <= vb < radix ^ len b.
Proof.
  intros Hr H. rewrite digitsFrom_app in H.
  destruct (digitsFrom radix a 0) as [va|] eqn:A; [|discriminate].
  destruct (digitsFrom_defined radix b va v Hr H) as [vb B].
  rewrite (digitsFrom_acc radix b va vb B) in H. injection H as <-.
  exists va, vb. split; [reflexivity|]. split; [exact B|]. split; [reflexivity|].
  apply (digitsFrom_below radix b vb ltac:(lia) B).
Qed.

Lemma zeros_value (k : nat) : digitsFrom 10 (repeat "0"%char k) 0 = Some 0.
Proof.
  rewrite <- (app_nil_r (repeat _ _)). now rewrite digitsFrom_leading_zeros by lia.
Qed.

Lemma len_repeat (c : ascii) (k : nat) : len (repeat c k) = Z.of_nat k.
Proof. unfold len. now rewrite repeat_length. Qed.

(** The fraction digits [croToWei] keeps: padded or cut to [d] digits, they
    are worth the fraction scaled by 10^d, rounded down. *)
Lemma paddedFractional_value (F : str) (f d : Z) :
  forallb isDecDigit F = true -> digitsFrom 10 F 0 = Some f -> 0 <= d ->
  digitsFrom 10 (slice (padEnd d "0" F) 0 d) 0 = Some (f * 10 ^ d / 10 ^ len F)
  /\ len (slice (padEnd d "0" F) 0 d) = d
  /\ forallb isDecDigit (slice (padEnd d "0" F) 0 d) = true.
Proof.
  intros HF VF Hd. pose proof (len_nonneg F) as LF.
  destruct (Z.le_gt_cases (len F) d) as [C|C].
  - assert (L : len (padEnd d "0" F) = d) by now apply length_padEnd.
    rewrite slice_all by lia. split; [|split; [exact L|]].
    + unfold padEnd. rewrite digitsFrom_app, VF.
      rewrite (digitsFrom_acc 10 _ f 0 (zeros_value _)).
      rewrite len_repeat, Z2Nat.id by lia. f_equal.
      replace (10 ^ d) with (10 ^ (d - len F) * 10 ^ len F)
        by (rewrite <- Z.pow_add_r by lia; f_equal; lia).
      rewrite Z.mul_assoc, Z.div_mul by (apply Z.pow_nonzero; lia). lia.
    + unfold padEnd. now rewrite forallb_app, HF, Units.repeat_dec.
  - assert (P : padEnd d "0" F = F).
    { unfold padEnd. replace (Z.to_nat (d - len F)) with 0%nat by lia.
      apply app_nil_r. }
    rewrite P, slice_nonneg by lia. cbn [skipn Z.to_nat].
    replace (d - 0) with d by lia.
    rewrite <- (firstn_skipn (Z.to_nat d) F) in VF.
    destruct (digitsFrom_split 10 _ _ f ltac:(lia) VF) as [va [vb [A [B [E R]]]]].
    assert (LS : len (skipn (Z.to_nat d) F) = len F - d)
      by (unfold len in *; rewrite length_skipn; lia).
    split; [|split].
    + rewrite A. f_equal. rewrite LS in *.
      replace (10 ^ len F) with (10 ^ (len F - d) * 10 ^ d)
        by (rewrite <- Z.pow_add_r by lia; f_equal; lia).
      rewrite Z.div_mul_cancel_r by (apply Z.pow_nonzero; lia).
      rewrite E. rewrite Z.div_add_l by (apply Z.pow_nonzero; lia).
      rewrite Z.div_small by lia. lia.
    + unfold len in *. rewrite length_firstn. lia.
    + apply forallb_forall. intros c Hc. rewrite forallb_forall in HF.
      apply HF. rewrite <- (firstn_skipn (Z.to_nat d) F). apply in_or_app. now left.
Qed.

(** The Wei an amount is worth: the amount scaled by 10^d, rounded down. *)
Lemma croToWei_value (W F : str) (a f d : Z) :
  forallb isDecDigit W = true -> forallb isDecDigit F = true ->
  parseDigits 10 W = Some a -> digitsFrom 10 F 0 = Some f -> 0 <= d ->
  croToWei (VStr (W ++ lit "." ++ F)) d
  = Some (toDigits 10 ((a * 10 ^ len F + f) * 10 ^ d / 10 ^ len F))
  /\ croToWei (VStr W) d = Some (toDigits 10 (a * 10 ^ d)).
Proof.
  intros HW HF PW VF Hd.
  destruct (Fees.parseDigits_nonneg 10 W a ltac:(lia) PW) as [NW Na].
  assert (VW : digitsFrom 10 W 0 = Some a) by (destruct W; [easy|exact PW]).
  pose proof (digitsFrom_below 10 F f ltac:(lia) VF) as Bf.
  assert (P10 : 0 < 10 ^ len F) by (apply Z.pow_pos_nonneg; [lia|apply len_nonneg]).
  assert (Pd : 0 < 10 ^ d) by (apply Z.pow_pos_nonneg; lia).
  split.
  - destruct (paddedFractional_value F f d HF VF Hd) as [V [L D]].
    unfold croToWei. cbn [toString].
    change (lit "." ++ F) with ("."%char :: F).
    rewrite splitOn_once by now apply Units.dec_no_dot.
    cbn [nth].
    rewrite (Units.combined_value _ _ a (f * 10 ^ d / 10 ^ len F)); try assumption.
    cbn [option_map]. rewrite L.
    assert (Q : 0 <= f * 10 ^ d / 10 ^ len F) by (apply Z.div_pos; nia).
    rewrite BigInt_toString_nonneg by nia. do 2 f_equal.
    replace ((a * 10 ^ len F + f) * 10 ^ d)
      with (a * 10 ^ d * 10 ^ len F + f * 10 ^ d) by ring.
    now rewrite Z.div_add_l by lia.
  - unfold croToWei. cbn [toString].
    rewrite splitOn_none by now apply Units.dec_no_dot.
    cbn [nth]. unfold padEnd at 1. cbn [app]. change (len []) with 0.
    rewrite slice_all by (rewrite len_repeat; lia).
    rewrite (Units.combined_value _ _ a 0); try assumption.
    + cbn [option_map]. rewrite len_repeat.
      rewrite BigInt_toString_nonneg by nia. do 2 f_equal.
      replace (Z.of_nat (Z.to_nat (d - 0))) with d by lia. lia.
    + apply Units.repeat_dec.
    + apply zeros_value.
Qed.

(** X10: [croToWei] scales an amount by 10^d and rounds down: a fraction
    shorter than [d] digits is padded, a longer one cut, never rounded up;
    an amount without a fraction is multiplied by 10^d. *)
Theorem croToWei_rounds_down (W F : str) (a f d : Z) :
  forallb isDecDigit W = true -> forallb isDecDigit F = true ->
  parseDigits 10 W = Some a -> digitsFrom 10 F 0 = Some f -> 0 <= d ->
  croToWei (VStr (W ++ lit "." ++ F)) d
  = Some (toDigits 10 ((a * 10 ^ len F + f) * 10 ^ d / 10 ^ len F))
  /\ croToWei (VStr W) d = Some (toDigits 10 (a * 10 ^ d)).
Proof. apply croToWei_value. Qed.

Lemma croToWei_rounds_down_witness :
  croToWei (VStr (lit "1" ++ lit "." ++ lit "2399")) 2
  = Some (toDigits 10 ((1 * 10 ^ len (lit "2399") + 2399) * 10 ^ 2
                       / 10 ^ len (lit "2399"))).
Proof.
  apply (croToWei_rounds_down (lit "1") (lit "2399") 1 2399 2);
    try reflexivity. lia.
Defined.

(** *** And back *)

Lemma digitVal_dec (c : ascii) (d : Z) : digitVal 10 c = Some d -> code c = 48 + d.
Proof.
  unfold digitVal. pose proof (code_range c).
  destruct ((48 <=? code c) && (code c <=? 57)) eqn:E1;
    [|destruct ((97 <=? code c) && (code c <=? 122)) eqn:E2;
      [|destruct ((65 <=? code c) && (code c <=? 90)) eqn:E3]];
    match goal with |- context [?a <? 10] => destruct (a <? 10) eqn:E end;
    try discriminate; intros [= <-]; lia.
Qed.

Lemma decDigit_unique (c c' : ascii) (d : Z) :
  digitVal 10 c = Some d -> digitVal 10 c' = Some d -> c = c'.
Proof.
  intros H H'. apply digitVal_dec in H, H'.
  unfold code in *.
  rewrite <- (ascii_nat_embedding c), <- (ascii_nat_embedding c').
  f_equal. lia.
Qed.

Lemma one_digit (c : ascii) (v : Z) :
  digitsFrom 10 [c] 0 = Some v -> digitVal 10 c = Some v.
Proof.
  cbn [digitsFrom]. destruct (digitVal 10 c) as [d|]; [|discriminate].
  intros [= <-]. f_equal.
Qed.

(** Two texts of as many digits with the same value are the same text. *)
Lemma fixed_width_unique (s t : str) (v : Z) :
  length s = length t ->
  digitsFrom 10 s 0 = Some v -> digitsFrom 10 t 0 = Some v -> s = t.
Proof.
  revert t v. induction s as [|c s IH]; intros [|c' t] v L S T; try discriminate.
  - reflexivity.
  - change (c :: s) with ([c] ++ s) in S. change (c' :: t) with ([c'] ++ t) in T.
    destruct (digitsFrom_split 10 _ _ v ltac:(lia) S) as [x [y [X [Y [E B]]]]].
    destruct (digitsFrom_split 10 _ _ v ltac:(lia) T) as [x' [y' [X' [Y' [E' B']]]]].
    assert (LL : len s = len t) by (unfold len; simpl in L; lia).
    rewrite LL in *.
    assert (P : 0 < 10 ^ len t) by (apply Z.pow_pos_nonneg; [lia|apply len_nonneg]).
    assert (x = x' /\ y = y') as [<- <-].
    { apply (Z.div_mod_unique (10 ^ len t)); [now left|now left|].
      rewrite !(Z.mul_comm (10 ^ len t)). now rewrite <- E, <- E'. }
    apply one_digit in X, X'. rewrite (decDigit_unique c c' x X X'). f_equal.
    apply (IH t y); [simpl in L; lia|assumption|assumption].
Qed.

Lemma digitsFrom_dec (s : str) :
  forallb isDecDigit s = true -> exists v, digitsFrom 10 s 0 = Some v.
Proof.
  induction s as [|c s IH] using rev_ind; intros H; [now exists 0|].
  rewrite forallb_app in H. apply andb_true_iff in H. destruct H as [Hs Hc].
  destruct (IH Hs) as [v V]. rewrite digitsFrom_app, V. cbn [digitsFrom].
  cbn [forallb] in Hc. unfold isDecDigit in Hc.
  destruct (digitVal 10 c); [eauto|discriminate].
Qed.

Lemma dropZeros_zeros (k : nat) (t : str) :
  dropZeros (repeat "0"%char k ++ t) = dropZeros t.
Proof. induction k as [|k IH]; [reflexivity|exact IH]. Qed.

Lemma stripTrailingZeros_zeros (F : str) (k : nat) :
  stripTrailingZeros (F ++ repeat "0"%char k) = stripTrailingZeros F.
Proof.
  unfold stripTrailingZeros.
  now rewrite rev_app_distr, rev_repeat, dropZeros_zeros.
Qed.

(** X11: an amount in its shortest writing (a whole number, then a fraction
    of at most [d] digits that does not end in 0, or no fraction at all)
    comes back unchanged from Wei, up to 22 decimals. *)
Theorem weiToCro_croToWei (a d : Z) (F : str) :
  0 <= a -> 0 <= d <= 22 ->
  forallb isDecDigit F = true -> F <> [] -> stripTrailingZeros F = F ->
  len F <= d ->
  andThen (croToWei (VStr (toDigits 10 a ++ lit "." ++ F)) d)
          (fun w => weiToCro (VStr w) d)
  = Some (toDigits 10 a ++ lit "." ++ F)
  /\ andThen (croToWei (VStr (toDigits 10 a)) d) (fun w => weiToCro (VStr w) d)
     = Some (toDigits 10 a).
Proof.
  intros Ha Hd HF NF SF LF.
  destruct (digitsFrom_dec F HF) as [f VF].
  pose proof (digitsFrom_below 10 F f ltac:(lia) VF) as Bf.
  assert (L0 : 1 <= len F)
    by (destruct F; [easy|unfold len; cbn [length]; lia]).
  assert (Pd : 0 < 10 ^ d) by (apply Z.pow_pos_nonneg; lia).
  assert (PF : 0 < 10 ^ len F) by (apply Z.pow_pos_nonneg; lia).
  assert (Pk : 0 < 10 ^ (d - len F)) by (apply Z.pow_pos_nonneg; lia).
  assert (Sp : 10 ^ d = 10 ^ (d - len F) * 10 ^ len F)
    by (rewrite <- Z.pow_add_r by lia; f_equal; lia).
  destruct (croToWei_value (toDigits 10 a) F a f d) as [C1 C2];
    try assumption; try lia.
  { now apply toDigits_dec. }
  { apply parseDigits_toDigits; lia. }
  split.
  - rewrite C1. cbn [andThen].
    set (r := f * 10 ^ (d - len F)).
    assert (W : (a * 10 ^ len F + f) * 10 ^ d / 10 ^ len F = a * 10 ^ d + r).
    { unfold r. rewrite Sp.
      replace ((a * 10 ^ len F + f) * (10 ^ (d - len F) * 10 ^ len F))
        with ((a * 10 ^ len F + f) * 10 ^ (d - len F) * 10 ^ len F) by ring.
      rewrite Z.div_mul by lia. ring. }
    rewrite W.
    assert (Rb : 0 <= r < 10 ^ d) by (unfold r; rewrite Sp; nia).
    assert (Fz : f <> 0).
    { intros ->.
      assert (Z0 : F = repeat "0"%char (length F)).
      { apply (fixed_width_unique _ _ 0); [now rewrite repeat_length|exact VF|].
        apply zeros_value. }
      assert (S0 : stripTrailingZeros F = []).
      { rewrite Z0. exact (stripTrailingZeros_zeros [] (length F)). }
      rewrite SF in S0. now apply NF. }
    assert (Rz : r <> 0) by (unfold r; nia).
    destruct (Units.weiToCro_exact_upto_22 (a * 10 ^ d + r) d ltac:(nia) Hd)
      as [-> _].
    f_equal. unfold weiToHuman.
    replace ((a * 10 ^ d + r) mod 10 ^ d) with r
      by (rewrite Z.add_comm, Z.mod_add, Z.mod_small by lia; reflexivity).
    replace ((a * 10 ^ d + r) / 10 ^ d) with a
      by (rewrite Z.div_add_l, Z.div_small by lia; lia).
    replace (r =? 0) with false by lia.
    do 2 f_equal.
    assert (U : padStart d "0" (toDigits 10 r)
                = F ++ repeat "0"%char (Z.to_nat (d - len F))).
    { apply (fixed_width_unique _ _ r).
      - assert (len (padStart d "0" (toDigits 10 r)) = d)
          by (apply length_padStart, len_toDigits; lia).
        unfold len in *. rewrite length_app, repeat_length. lia.
      - unfold padStart. rewrite digitsFrom_leading_zeros by lia.
        apply toDigits_value; lia.
      - rewrite digitsFrom_app, VF.
        rewrite (digitsFrom_acc 10 _ f 0 (zeros_value _)).
        rewrite len_repeat, Z2Nat.id by lia. f_equal. unfold r. lia. }
    now rewrite U, stripTrailingZeros_zeros.
  - rewrite C2. cbn [andThen].
    destruct (Units.weiToCro_exact_upto_22 (a * 10 ^ d) d ltac:(nia) Hd) as [-> _].
    f_equal. unfold weiToHuman.
    rewrite Z.mod_mul, Z.div_mul by lia. reflexivity.
Qed.

Lemma weiToCro_croToWei_witness :
  andThen (croToWei (VStr (toDigits 10 12 ++ lit "." ++ lit "05")) 18)
          (fun w => weiToCro (VStr w) 18)
  = Some (toDigits 10 12 ++ lit "." ++ lit "05").
Proof.
  apply (weiToCro_croToWei 12 18 (lit "05")); try reflexivity; try lia.
  - discriminate.
  - apply Z.leb_le. reflexivity.
Defined.

End Amounts.

(** ** Encoding a call and decoding it again *)

Module RoundTrip.
Import JS Utils Props PropsMore JSFacts MoreFacts.





(** The word of a non-negative integer decodes to its decimal text. *)
Lemma decodeUint256_word (n : Z) :
  0 <= n ->
  decodeUint256 (lit "0x" ++ padStart 64 "0" (toDigits 16 n)) = Some (toDigits 10 n).
Proof.
  intros Hn. change decodeUint256 with hexToDecimal.
  apply Conversions.hexToDecimal_prefixed.
  - now apply Encoding.padStart_hex, toDigits_hex.
  - unfold parseDigits, padStart.
    destruct (repeat "0"%char (Z.to_nat (64 - len (toDigits 16 n))) ++ toDigits 16 n)
      as [|c r] eqn:E.
    + apply app_eq_nil in E. destruct E as [_ E]. now apply toDigits_nonempty in E.
    + rewrite <- E, digitsFrom_leading_zeros by lia. apply toDigits_value; lia.
Qed.






End RoundTrip.

(** ** More on the two encoders *)

Module Encoders.
Import JS Utils Props PropsMore JSFacts MoreFacts.

Lemma encodeLoop_app (p1 p2 : list param) (data : str) :
  Utils.encodeLoop (p1 ++ p2) data
  = andThen (Utils.encodeLoop p1 data) (fun d => Utils.encodeLoop p2 d).
Proof.
  revert data. induction p1 as [|p p1 IH]; intros data; [reflexivity|].
  cbn [app Utils.encodeLoop]. destruct (Utils.encodeParam p); [apply IH|reflexivity].
Qed.

Lemma encodeLoop_prefix (params : list param) (data out : str) :
  Utils.encodeLoop params data = Some out -> startsWith data out = true.
Proof.
  revert data. induction params as [|p params IH]; intros data.
  - intros [= <-]. rewrite <- (app_nil_r data) at 2. apply startsWith_app.
  - cbn [Utils.encodeLoop]. destruct (Utils.encodeParam p) as [w|]; [|discriminate].
    intros H. apply IH in H. apply startsWith_spec in H.
    rewrite H, <- app_assoc. apply startsWith_app.
Qed.

(** X13: call data can be built in steps: encoding two lists of parameters
    one after the other, the second from the output of the first, is
    encoding them together; and every output starts with the text the
    encoding started from. *)
Theorem encodeFunctionCall_app (sel : str) (p1 p2 : list param) :
  encodeFunctionCall sel (p1 ++ p2)
  = andThen (encodeFunctionCall sel p1) (fun data => encodeFunctionCall data p2)
  /\ (forall out, encodeFunctionCall sel (p1 ++ p2) = Some out ->
                  startsWith sel out = true).
Proof.
  split; [apply encodeLoop_app|]. intros out. apply encodeLoop_prefix.
Qed.

Lemma encodeFunctionCall_app_witness :
  exists out,
    encodeFunctionCall (lit "0xa9059cbb")
      ([{| ptype := lit "uint256"; pvalue := VStr (lit "7") |}]
       ++ [{| ptype := lit "bool"; pvalue := VBool true |}]) = Some out
    /\ startsWith (lit "0xa9059cbb") out = true.
Proof.
  destruct (encodeFunctionCall (lit "0xa9059cbb")
              ([{| ptype := lit "uint256"; pvalue := VStr (lit "7") |}]
               ++ [{| ptype := lit "bool"; pvalue := VBool true |}]))
    as [out|] eqn:E; [|vm_compute in E; discriminate E].
  exists out. split; [reflexivity|].
  exact (proj2 (encodeFunctionCall_app (lit "0xa9059cbb")
                  [{| ptype := lit "uint256"; pvalue := VStr (lit "7") |}]
                  [{| ptype := lit "bool"; pvalue := VBool true |}]) out E).
Defined.

Lemma encodeParam_none (p : param) :
  Utils.encodeParam p = None <-> notAnInteger p = true.
Proof.
  unfold Utils.encodeParam, notAnInteger. fold (isCallInt (ptype p)).
  destruct (str_eqb (ptype p) (lit "address")); [easy|].
  destruct (isCallInt (ptype p)).
  - unfold padNumber. destruct (BigInt (pvalue p)); easy.
  - destruct (str_eqb (ptype p) (lit "bool")).
    + destruct (truthy (pvalue p)); easy.
    + destruct (str_eqb (ptype p) (lit "bytes32")); easy.
Qed.

(** X14: [encodeFunctionCall] throws exactly when some parameter of type
    uint256, uint or int256 has a value that is not an integer text; it
    never rejects an address, a boolean, bytes or an unknown type. *)
Theorem encodeFunctionCall_throws (sel : str) (params : list param) :
  encodeFunctionCall sel params = None <-> existsb notAnInteger params = true.
Proof.
  unfold encodeFunctionCall. revert sel.
  induction params as [|p params IH]; intros sel; [easy|].
  cbn [Utils.encodeLoop existsb]. rewrite orb_true_iff, <- encodeParam_none.
  destruct (Utils.encodeParam p) as [w|].
  - rewrite IH. split; [now right|]. now intros [C|C].
  - split; [now left|reflexivity].
Qed.

Lemma encodeFunctionCall_throws_witness :
  encodeFunctionCall (lit "0x70a08231")
    [{| ptype := lit "uint256"; pvalue := VStr (lit "1.5") |}] = None.
Proof.
  apply (proj2 (encodeFunctionCall_throws (lit "0x70a08231")
                  [{| ptype := lit "uint256"; pvalue := VStr (lit "1.5") |}])).
  reflexivity.
Defined.

Lemma action_loop_none (n : Z) (params : list param) (data : str) (p : param) :
  In p params -> Utility.encodeParam n p = None ->
  Utility.encodeLoop n params data = None.
Proof.
  intros I E. revert data. induction params as [|q params IH]; intros data;
    [easy|].
  cbn [Utility.encodeLoop]. destruct I as [->|I].
  - now rewrite E.
  - destruct (Utility.encodeParam n q); [now apply IH|reflexivity].
Qed.

(** X15: the [encodeFunction] action rejects the whole call as soon as one
    parameter of type address is not a valid address; [encodeFunctionCall]
    encodes the same parameter without a check. *)
Theorem encodeFunction_invalid_address (sel : str) (params : list param) (v : value) :
  In {| ptype := lit "address"; pvalue := v |} params ->
  isValidAddress (toString v) = false ->
  Utility.encodeFunction sel params = None
  /\ exists w, Utils.encodeParam {| ptype := lit "address"; pvalue := v |} = Some w.
Proof.
  intros I V. split.
  - apply (action_loop_none _ _ _ _ I).
    unfold Utility.encodeParam. cbn [ptype pvalue]. now rewrite V.
  - eexists. reflexivity.
Qed.

Lemma encodeFunction_invalid_address_witness :
  Utility.encodeFunction (lit "0x70a08231")
    [{| ptype := lit "address"; pvalue := VStr (lit "0x123") |}] = None.
Proof.
  apply (encodeFunction_invalid_address (lit "0x70a08231")
           [{| ptype := lit "address"; pvalue := VStr (lit "0x123") |}]
           (VStr (lit "0x123"))); [now left|reflexivity].
Defined.

End Encoders.

(** ** The conversions of [convertUnits] *)

Module Conversion.
Import JS Utils UtilityUnits Props JSFacts MoreFacts.

Lemma weiToCro_of (w : str) (n d : Z) :
  BigInt_ofString w = Some n -> 0 <= n -> 0 <= d <= 22 ->
  weiToCro (VStr w) d = Some (weiToHuman n d).
Proof.
  intros B Hn Hd. unfold weiToCro. rewrite B, Units.BigInt_pow10_exact by assumption.
  now rewrite Units.weiToCroWith_exact by lia.
Qed.

(** X16: the conversions the action reports all stand for the amount in
    its [wei] field: the [hex] text read back, and the [gwei] and [cro]
    texts taken back to Wei, give that amount, for any units asked. *)
Theorem convertUnits_consistent (value fromUnit toUnit : str) (decimals : Z)
        (r : conversion) (n : Z) :
  convertUnits value fromUnit toUnit decimals = Some r ->
  BigInt_ofString (wei r) = Some n -> 0 <= n ->
  hexToDecimal (hex r) = Some (toDigits 10 n)
  /\ croToWei (VStr (gwei r)) 9 = Some (toDigits 10 n)
  /\ croToWei (VStr (cro r)) 18 = Some (toDigits 10 n).
Proof.
  unfold convertUnits. intros C B Hn.
  destruct (toWei value fromUnit decimals) as [w|]; [|discriminate].
  cbn [andThen] in C.
  destruct (fromWei w toUnit decimals) as [res|]; [|discriminate].
  cbn [andThen] in C.
  destruct (weiToCro (VStr w) 9) as [g|] eqn:G; [|discriminate].
  destruct (weiToCro (VStr w) 18) as [c|] eqn:K; [|discriminate].
  destruct (decimalToHex (VStr w)) as [h|] eqn:H; [|discriminate].
  cbn [andThen] in C. injection C as <-. cbn [wei gwei cro hex] in *.
  rewrite (weiToCro_of w n 9 B Hn ltac:(lia)) in G. injection G as <-.
  rewrite (weiToCro_of w n 18 B Hn ltac:(lia)) in K. injection K as <-.
  assert (Hh : h = lit "0x" ++ toDigits 16 n).
  { unfold decimalToHex in H. cbn [BigInt] in H. rewrite B in H.
    cbn [option_map] in H.
    rewrite BigInt_toString_nonneg in H by assumption. now injection H. }
  rewrite Hh. split; [|split; apply Units.croToWei_weiToHuman; lia].
  apply Conversions.hexToDecimal_prefixed; [now apply toDigits_hex|].
  apply parseDigits_toDigits; lia.
Qed.

Lemma convertUnits_consistent_witness :
  exists r, convertUnits (lit "1.5") (lit "cro") (lit "gwei") 18 = Some r
            /\ croToWei (VStr (gwei r)) 9 = Some (toDigits 10 1500000000000000000).
Proof.
  destruct (convertUnits (lit "1.5") (lit "cro") (lit "gwei") 18) as [r|] eqn:E;
    [|vm_compute in E; discriminate E].
  exists r. split; [reflexivity|].
  apply (convertUnits_consistent (lit "1.5") (lit "cro") (lit "gwei") 18 r
           1500000000000000000 E).
  - vm_compute in E. injection E as <-. reflexivity.
  - lia.
Defined.

End Conversion.

(** ** The owner map of an ERC-1155 item *)

Module Holders.
Import JS Owners PropsMore JSFacts MoreFacts.

Lemma in_keys_mapSet (m : balances) (k : str) (v : Z) (x : str) :
  In x (map fst (mapSet m k v)) -> x = k \/ In x (map fst m).
Proof.
  induction m as [|[k' v'] m IH]; cbn [mapSet map fst In].
  - intros [<-|[]]. now left.
  - destruct (str_eqb k' k); cbn [map fst In]; [now right|].
    intros [<-|I]; [right; now left|]. destruct (IH I); [now left|right; now right].
Qed.

Lemma mapSet_NoDup (m : balances) (k : str) (v : Z) :
  NoDup (map fst m) -> NoDup (map fst (mapSet m k v)).
Proof.
  induction m as [|[k' v'] m IH]; cbn [mapSet map fst]; intros N.
  - constructor; [easy|constructor].
  - destruct (str_eqb k' k) eqn:E; cbn [map fst]; [exact N|].
    inversion N as [|? ? N1 N2]; subst. constructor; [|now apply IH].
    intros I. apply in_keys_mapSet in I. destruct I as [->|I]; [|easy].
    now rewrite (proj2 (str_eqb_eq k k) eq_refl) in E.
Qed.

Lemma mapSet_lower (m : balances) (k : str) (v : Z) :
  toLowerCase k = k ->
  Forall (fun x => toLowerCase x = x) (map fst m) ->
  Forall (fun x => toLowerCase x = x) (map fst (mapSet m k v)).
Proof.
  intros K F. apply Forall_forall. intros x I.
  apply in_keys_mapSet in I. destruct I as [->|I]; [exact K|].
  now apply (proj1 (Forall_forall _ _) F).
Qed.

Lemma total_mapSet (m : balances) (k : str) (v : Z) :
  total (mapSet m k v) = total m - balanceOf m k + v.
Proof.
  unfold total, balanceOf.
  induction m as [|[k' v'] m IH]; cbn [mapSet mapGet fold_right snd]; [lia|].
  destruct (str_eqb k' k); cbn [fold_right snd]; lia.
Qed.

Lemma applyTransfer_wellFormed (m m' : balances) (t : transfer) :
  applyTransfer m t = Some m' -> wellFormed m -> wellFormed m'.
Proof.
  unfold applyTransfer, wellFormed.
  destruct (BigInt_ofString _) as [v|]; [|discriminate].
  intros [= <-] [N F].
  destruct (negb (str_eqb (toLowerCase (from t)) zero)).
  - split; [now do 2 apply mapSet_NoDup|].
    do 2 (apply mapSet_lower; [apply toLowerCase_twice|]). exact F.
  - split; [now apply mapSet_NoDup|].
    apply mapSet_lower; [apply toLowerCase_twice|exact F].
Qed.

Lemma applyTransfers_wellFormed (ts : list transfer) (m m' : balances) :
  applyTransfers m ts = Some m' -> wellFormed m -> wellFormed m'.
Proof.
  revert m. induction ts as [|t ts IH]; intros m; cbn [applyTransfers].
  - now intros [= <-].
  - destruct (applyTransfer m t) as [m1|] eqn:E; [|discriminate].
    intros A W. apply (IH m1 A). exact (applyTransfer_wellFormed m m1 t E W).
Qed.

Lemma applyTransfer_total (m m' : balances) (t : transfer) :
  applyTransfer m t = Some m' -> total m' = total m + minted [t].
Proof.
  unfold applyTransfer. cbn [minted].
  destruct (BigInt_ofString _) as [v|]; [|discriminate].
  intros [= <-]. rewrite total_mapSet.
  destruct (str_eqb (toLowerCase (from t)) zero); cbn [negb]; [lia|].
  rewrite total_mapSet. lia.
Qed.

Lemma minted_app (a b : list transfer) : minted (a ++ b) = minted a + minted b.
Proof.
  induction a as [|t a IH]; [reflexivity|].
  cbn [app minted]. rewrite IH. lia.
Qed.

Lemma minted_rev (a : list transfer) : minted (rev a) = minted a.
Proof.
  induction a as [|t a IH]; [reflexivity|].
  cbn [rev]. rewrite minted_app, IH. cbn [minted]. lia.
Qed.

Lemma applyTransfers_total (ts : list transfer) (m m' : balances) :
  applyTransfers m ts = Some m' -> total m' = total m + minted ts.
Proof.
  revert m. induction ts as [|t ts IH]; intros m; cbn [applyTransfers].
  - intros [= <-]. cbn [minted]. lia.
  - destruct (applyTransfer m t) as [m1|] eqn:E; [|discriminate].
    intros A. rewrite (IH m1 A), (applyTransfer_total m m1 t E).
    cbn [minted]. lia.
Qed.

(** X17: every owner the action lists has an address in lower case that is
    listed once only, and a balance that is the decimal text of a positive
    integer. *)
Theorem owners_distinct_positive (tokenId : str) (transfers : list transfer)
        (os : list (str * str)) :
  owners tokenId transfers = Some os ->
  NoDup (map fst os)
  /\ Forall (fun o => toLowerCase (fst o) = fst o
                      /\ exists b, 0 < b /\ snd o = toDigits 10 b) os.
Proof.
  unfold owners, Owners.ownerBalances.
  destruct (applyTransfers [] _) as [m|] eqn:A; [|discriminate].
  cbn [option_map]. intros [= <-].
  assert (W : wellFormed m).
  { apply (applyTransfers_wellFormed _ _ _ A). split; constructor. }
  destruct W as [N F]. clear A. rewrite map_map. cbn [fst].
  induction m as [|[k b] m IH]; cbn [filter map fst snd]; [split; constructor|].
  cbn [map fst] in N, F. inversion N as [|? ? N1 N2]; subst.
  inversion F as [|? ? F1 F2]; subst. destruct (IH N2 F2) as [IN IF].
  destruct (0 <? b) eqn:P; cbn [map fst snd]; [|now split].
  split.
  - constructor; [|exact IN]. intros I. apply N1.
    apply in_map_iff in I. destruct I as [e [<- I]].
    apply filter_In in I. apply in_map. tauto.
  - constructor; [|exact IF]. cbn [fst snd]. split; [exact F1|].
    exists b. split; [lia|]. apply BigInt_toString_nonneg. lia.
Qed.

Lemma owners_distinct_positive_witness :
  NoDup (map fst [(lit "0xab", lit "2"); (lit "0xcd", lit "3")]).
Proof.
  refine (proj1 (owners_distinct_positive (lit "7")
    [ {| tokenID := lit "7"; from := lit "0xAB"; to := lit "0xCD";
         tokenValue := Some (lit "3") |};
      {| tokenID := lit "8"; from := zero; to := lit "0xEF"; tokenValue := None |};
      {| tokenID := lit "7"; from := zero; to := lit "0xAb";
         tokenValue := Some (lit "5") |} ]
    [(lit "0xab", lit "2"); (lit "0xcd", lit "3")] _)).
  reflexivity.
Defined.

(** X18: the balances of the map add up to what the transfers of the item
    mint, that is the values sent from the zero address: a transfer between
    holders moves value and neither makes nor loses any, and what is sent
    to the zero address stays counted, as a balance of that address. *)
Theorem balances_conserved (tokenId : str) (transfers : list transfer)
        (m : balances) :
  Owners.ownerBalances tokenId transfers = Some m ->
  total m = minted (filter (fun t => str_eqb (tokenID t) tokenId) transfers).
Proof.
  unfold Owners.ownerBalances. intros A.
  rewrite (applyTransfers_total _ _ _ A), minted_rev. cbn [total fold_right]. lia.
Qed.

Lemma balances_conserved_witness :
  total [(lit "0xab", 3); (lit "0x0000000000000000000000000000000000000000", 2)] = 5.
Proof.
  refine (balances_conserved (lit "7")
    [ {| tokenID := lit "7"; from := lit "0xAB"; to := zero;
         tokenValue := Some (lit "2") |};
      {| tokenID := lit "7"; from := zero; to := lit "0xAb";
         tokenValue := Some (lit "5") |} ]
    [(lit "0xab", 3); (lit "0x0000000000000000000000000000000000000000", 2)] _).
  reflexivity.
Defined.

End Holders.

(** ** The gas price suggestions *)

Module Gas.
Import JS Utils UtilsRest Network Props JSFacts MoreFacts.

Lemma scaled_gwei (g k : Z) :
  0 <= g -> 0 <= k ->
  Z.quot (g * k) 100 = g * k / 100
  /\ weiToCro (VStr (BigInt_toString 10 (Z.quot (g * k) 100))) 9
     = Some (weiToHuman (g * k / 100) 9).
Proof.
  intros G K. assert (P : 0 <= g * k) by nia.
  rewrite Z.quot_div_nonneg by lia. split; [reflexivity|].
  assert (Q : 0 <= g * k / 100) by (apply Z.div_pos; lia).
  rewrite BigInt_toString_nonneg by assumption.
  now destruct (Units.weiToCro_exact_upto_22 (g * k / 100) 9 Q ltac:(lia)) as [-> _].
Qed.

(** X19: for a gas price g given as a hexadecimal quantity the suggestions
    are 90, 120 and 150 percent of g rounded down to whole Wei, so that
    slow <= g <= fast <= instant, and each Gwei text is the exact amount of
    the Wei beside it. *)
Theorem gasSuggestions_ordered (h : str) (g : Z) :
  forallb isHexDigit h = true -> parseDigits 16 h = Some g ->
  exists s, gasSuggestions (lit "0x" ++ h) = Some s
    /\ slowWei s = g * 90 / 100 /\ fastWei s = g * 120 / 100
    /\ instantWei s = g * 150 / 100
    /\ slowWei s <= g <= fastWei s /\ fastWei s <= instantWei s
    /\ standardWei s = toDigits 10 g /\ standardGwei s = weiToHuman g 9
    /\ slowGwei s = weiToHuman (slowWei s) 9
    /\ fastGwei s = weiToHuman (fastWei s) 9
    /\ instantGwei s = weiToHuman (instantWei s) 9.
Proof.
  intros H P. destruct (Fees.parseDigits_nonneg 16 h g ltac:(lia) P) as [_ G].
  unfold gasSuggestions, formatGasPrice.
  rewrite (Fees.quantity_exact h g 9 H P ltac:(lia)).
  rewrite (Conversions.hexToDecimal_prefixed h g H P). cbn [andThen].
  assert (B : BigInt_ofString (toDigits 10 g) = Some g).
  { rewrite <- (BigInt_toString_nonneg 10 g G).
    now apply BigInt_ofString_toString. }
  rewrite B. cbn [andThen].
  destruct (scaled_gwei g 90 G ltac:(lia)) as [-> ->].
  destruct (scaled_gwei g 120 G ltac:(lia)) as [-> ->].
  destruct (scaled_gwei g 150 G ltac:(lia)) as [-> ->].
  cbn [andThen]. eexists. split; [reflexivity|].
  cbn [slowWei fastWei instantWei standardWei standardGwei slowGwei fastGwei
       instantGwei].
  repeat (split; [reflexivity|]).
  split; [split|split; [|repeat split; try reflexivity]].
  - apply Z.div_le_upper_bound; lia.
  - apply Z.div_le_lower_bound; lia.
  - apply Z.div_le_mono; lia.
Qed.

Lemma gasSuggestions_ordered_witness :
  exists s, gasSuggestions (lit "0x" ++ lit "12a05f200") = Some s
            /\ slowWei s = 4500000000 /\ fastWei s = 6000000000.
Proof.
  destruct (gasSuggestions_ordered (lit "12a05f200") 5000000000
              eq_refl eq_refl) as [s [E [S [F _]]]].
  exists s. split; [exact E|]. split; [exact S|exact F].
Defined.

End Gas.

(** ** The new-block poll *)

Module Polling.
Import JS Trigger JSFacts.

(** The run of [n] block numbers after [l]. *)
Lemma run_nth (l : Z) (n i : nat) :
  (i < n)%nat ->
  nth i (map (fun i => l + 1 + Z.of_nat i) (seq 0 n)) 0 = l + 1 + Z.of_nat i.
Proof.
  intros I.
  assert (G : forall k, nth i (map (fun i => l + 1 + Z.of_nat i) (seq k n)) 0
                        = l + 1 + Z.of_nat (k + i)).
  { revert i I. induction n as [|n IH]; intros i I k; [lia|].
    destruct i as [|i]; cbn [seq map nth].
    - now rewrite Nat.add_0_r.
    - rewrite IH by lia. f_equal. lia. }
  apply G.
Qed.

Lemma run_app (l : Z) (n m : nat) :
  map (fun i => l + 1 + Z.of_nat i) (seq 0 n)
  ++ map (fun i => l + Z.of_nat n + 1 + Z.of_nat i) (seq 0 m)
  = map (fun i => l + 1 + Z.of_nat i) (seq 0 (n + m)).
Proof.
  assert (G : forall k,
             map (fun i => l + Z.of_nat n + 1 + Z.of_nat i) (seq k m)
             = map (fun i => l + 1 + Z.of_nat i) (seq (n + k) m)).
  { induction m as [|m IH]; intros k; [reflexivity|].
    cbn [seq map]. f_equal; [lia|]. rewrite IH.
    now replace (n + S k)%nat with (S (n + k)) by lia. }
  rewrite seq_app, map_app, G. cbn [Nat.add]. now rewrite Nat.add_0_r.
Qed.

Lemma run_last (l : Z) (n : nat) :
  last (map (fun i => l + 1 + Z.of_nat i) (seq 0 (S n))) 0 = l + Z.of_nat (S n).
Proof.
  replace (S n) with (n + 1)%nat at 1 by lia.
  rewrite seq_app, map_app. cbn [Nat.add]. change (seq n 1) with [n].
  cbn [map]. rewrite last_last. lia.
Qed.

(** A poll from a stored block other than 0. *)
Lemma poll_from (l c : Z) (result : str) :
  parseInt16 result = Some c -> l <> 0 ->
  exists n, (n <= 10)%nat /\ l + Z.of_nat n <= Z.max l c
    /\ pollNewBlock (Some l) result
       = (map (fun i => l + 1 + Z.of_nat i) (seq 0 n), Some (l + Z.of_nat n)).
Proof.
  intros P L. unfold pollNewBlock. rewrite P.
  replace (l =? 0) with false by lia.
  destruct (c <=? l) eqn:E.
  - exists 0%nat. split; [lia|]. split; [lia|].
    cbn [seq map Z.of_nat]. now rewrite Z.add_0_r.
  - exists (Z.to_nat (Z.min (c - l) 10)). split; [lia|]. split; [lia|].
    rewrite Z2Nat.id by lia. reflexivity.
Qed.

(** A poll with nothing usable stored. *)
Lemma poll_fresh (stored : option Z) (c : Z) (result : str) :
  parseInt16 result = Some c -> stored = None \/ stored = Some 0 ->
  pollNewBlock stored result = ([c], Some c).
Proof.
  intros P S. unfold pollNewBlock. rewrite P.
  assert (E : match stored with
              | Some l => if l =? 0 then c - 1 else l
              | None => c - 1
              end = c - 1) by now destruct S as [->| ->].
  rewrite E. replace (c <=? c - 1) with false by lia.
  replace (Z.min (c - (c - 1)) 10) with 1 by lia.
  change (Z.to_nat 1) with 1%nat. cbn [seq map Z.of_nat].
  replace (c - 1 + 1 + 0) with c by lia.
  now replace (c - 1 + 1) with c by lia.
Qed.

(** X20: one poll asks for at most ten blocks, with consecutive numbers
    none of which is beyond the current block; it then stores the number of
    the last one, and leaves the stored number alone when it asks for
    none.  (Block numbers below 2^52, where Number arithmetic is exact.) *)
Theorem pollNewBlock_blocks (stored : option Z) (result : str) (cur : Z)
        (blocks : list Z) (st' : option Z) :
  parseInt16 result = Some cur -> 0 <= cur < 2 ^ 52 ->
  (forall l, stored = Some l -> 0 <= l < 2 ^ 52) ->
  pollNewBlock stored result = (blocks, st') ->
  (length blocks <= 10)%nat
  /\ Forall (fun b => b <= cur) blocks
  /\ (forall i, (S i < length blocks)%nat ->
                nth (S i) blocks 0 = nth i blocks 0 + 1)
  /\ (blocks = [] -> st' = stored)
  /\ (blocks <> [] -> st' = Some (last blocks 0)).
Proof.
  intros P _ _. unfold pollNewBlock. rewrite P.
  set (lastBlock := match stored with
                    | Some l => if l =? 0 then cur - 1 else l
                    | None => cur - 1
                    end).
  destruct (cur <=? lastBlock) eqn:E.
  - intros [= <- <-]. cbn [length nth]. repeat split; try easy; try lia.
  - intros [= <- <-].
    assert (B : 1 <= Z.min (cur - lastBlock) 10 <= 10) by lia.
    set (n := Z.to_nat (Z.min (cur - lastBlock) 10)).
    assert (N : Z.of_nat n = Z.min (cur - lastBlock) 10) by (unfold n; lia).
    rewrite length_map, length_seq. split; [lia|]. split; [|split; [|split]].
    + apply Forall_forall. intros b I. apply in_map_iff in I.
      destruct I as [i [<- I]]. apply in_seq in I. lia.
    + intros i I. rewrite !run_nth by lia. lia.
    + destruct n as [|n']; [lia|discriminate].
    + intros _. destruct n as [|n']; [lia|]. rewrite run_last, N. reflexivity.
Qed.

Lemma pollNewBlock_blocks_witness :
  (length [101; 102; 103; 104; 105; 106; 107; 108; 109; 110] <= 10)%nat
  /\ Forall (fun b => b <= 259) [101; 102; 103; 104; 105; 106; 107; 108; 109; 110].
Proof.
  destruct (pollNewBlock_blocks (Some 100) (lit "0x103") 259
              [101; 102; 103; 104; 105; 106; 107; 108; 109; 110] (Some 110))
    as [L [F _]].
  - reflexivity.
  - split; [apply Z.leb_le; reflexivity|reflexivity].
  - intros l [= <-]. split; [apply Z.leb_le; reflexivity|reflexivity].
  - reflexivity.
  - exact (conj L F).
Defined.

(** X21: from a stored block l other than 0, two polls in a row ask
    together for the run of blocks after l, each once and none left out,
    and store where the run ends; the second poll starts where the first
    stopped. *)
Theorem pollNewBlock_contiguous (l c1 c2 : Z) (r1 r2 : str)
        (b1 b2 : list Z) (s1 s2 : option Z) :
  0 < l < 2 ^ 52 -> 0 <= c1 < 2 ^ 52 -> 0 <= c2 < 2 ^ 52 ->
  parseInt16 r1 = Some c1 -> parseInt16 r2 = Some c2 ->
  pollNewBlock (Some l) r1 = (b1, s1) ->
  pollNewBlock s1 r2 = (b2, s2) ->
  b1 ++ b2 = map (fun i => l + 1 + Z.of_nat i) (seq 0 (length (b1 ++ b2)))
  /\ s2 = Some (l + Z.of_nat (length (b1 ++ b2))).
Proof.
  intros L _ _ P1 P2 E1 E2.
  destruct (poll_from l c1 r1 P1 ltac:(lia)) as [n1 [_ [_ Q1]]].
  rewrite Q1 in E1. injection E1 as <- <-.
  destruct (poll_from (l + Z.of_nat n1) c2 r2 P2 ltac:(lia)) as [n2 [_ [_ Q2]]].
  rewrite Q2 in E2. injection E2 as <- <-.
  rewrite length_app, !length_map, !length_seq, run_app.
  split; [reflexivity|]. f_equal. lia.
Qed.

Lemma pollNewBlock_contiguous_witness :
  [101; 102; 103; 104; 105; 106; 107; 108; 109; 110] ++ [111; 112]
  = map (fun i => 100 + 1 + Z.of_nat i) (seq 0 12).
Proof.
  refine (proj1 (pollNewBlock_contiguous 100 259 112 (lit "0x103") (lit "0x70")
            [101; 102; 103; 104; 105; 106; 107; 108; 109; 110] [111; 112]
            (Some 110) (Some 112) _ _ _ _ _ _ _));
    try reflexivity; split; try reflexivity; apply Z.leb_le; reflexivity.
Defined.

(** X22: with no block stored, or block 0, or after a poll whose answer
    could not be read as a number - which asks for nothing and loses the
    stored block - the poll asks for the current block alone: the blocks
    before it are never reported. *)
Theorem pollNewBlock_restart (stored : option Z) (bad result : str) (cur : Z) :
  parseInt16 bad = None -> parseInt16 result = Some cur -> 0 <= cur < 2 ^ 52 ->
  pollNewBlock stored bad = ([], None)
  /\ pollNewBlock (snd (pollNewBlock stored bad)) result = ([cur], Some cur)
  /\ pollNewBlock None result = ([cur], Some cur)
  /\ pollNewBlock (Some 0) result = ([cur], Some cur).
Proof.
  intros B P _.
  assert (E : pollNewBlock stored bad = ([], None))
    by (unfold pollNewBlock; now rewrite B).
  rewrite E. cbn [snd].
  repeat split; apply poll_fresh; auto.
Qed.

Lemma pollNewBlock_restart_witness :
  pollNewBlock (snd (pollNewBlock (Some 100) (lit "undefined"))) (lit "0x103")
  = ([259], Some 259).
Proof.
  refine (proj1 (proj2 (pollNewBlock_restart (Some 100) (lit "undefined")
                          (lit "0x103") 259 _ _ _))); try reflexivity.
  split; [apply Z.leb_le; reflexivity|reflexivity].
Defined.

End Polling.

(** ** The call data of the contract actions *)

Module Calls.
Import JS Utils Props PropsMore JSFacts MoreFacts.

Lemma callParam_action (n : Z) (p : param) (w : str) :
  shared p = true -> Utility.encodeParam n p = Some w ->
  SmartContracts.callParam p = Some w.
Proof.
  unfold shared, Utility.encodeParam, SmartContracts.callParam.
  destruct (str_eqb (ptype p) (lit "address")).
  { intros _. destruct (negb (isValidAddress (toString (pvalue p))));
      [discriminate|]. now destruct (pvalue p). }
  destruct (startsWith (lit "int") (ptype p)); [discriminate|].
  rewrite orb_false_r.
  destruct (str_eqb (ptype p) (lit "uint256") || startsWith (lit "uint") (ptype p));
    [easy|].
  destruct (str_eqb (ptype p) (lit "bool")); [easy|].
  destruct (str_eqb (ptype p) (lit "bytes32")); [easy|].
  destruct (str_eqb (ptype p) (lit "bytes")); [discriminate|].
  destruct (str_eqb (ptype p) (lit "string")); [discriminate|easy].
Qed.

(** X23: whatever the [encodeFunction] action encodes, the [readContract]
    and [writeContract] actions send as call data, as long as no parameter
    has a type that starts with int or is bytes or string (which they leave
    out). *)
Theorem callData_encodeFunction (sel encodedData : str) (params : list param) :
  forallb shared params = true ->
  Utility.encodeFunction sel params = Some encodedData ->
  SmartContracts.callData sel params = Some encodedData.
Proof.
  unfold Utility.encodeFunction, SmartContracts.callData.
  generalize (Z.of_nat (length params)) as n. intros n. revert sel.
  induction params as [|p params IH]; intros sel S; [easy|].
  cbn [forallb] in S. apply andb_true_iff in S. destruct S as [Sp Ss].
  cbn [Utility.encodeLoop SmartContracts.callLoop].
  destruct (Utility.encodeParam n p) as [w|] eqn:E; [|discriminate].
  rewrite (callParam_action n p w Sp E). now apply IH.
Qed.

Lemma callData_encodeFunction_witness :
  SmartContracts.callData (lit "0xa9059cbb")
    [{| ptype := lit "address";
        pvalue := VStr (lit "0x5C7F8A570d578ED84E63fdFA7b1eE72dEae1AE23") |};
     {| ptype := lit "uint256"; pvalue := VStr (lit "1000") |}]
  = Some (lit "0xa9059cbb"
          ++ lit "0000000000000000000000005c7f8a570d578ed84e63fdfa7b1ee72deae1ae23"
          ++ lit "00000000000000000000000000000000000000000000000000000000000003e8").
Proof.
  apply callData_encodeFunction; reflexivity.
Defined.

End Calls.

(** ** Block parameters of [getLogs] *)

Module Logs.
Import JS Utils Events Props JSFacts MoreFacts.

Lemma dec_not_tag (s tag : str) :
  forallb isDecDigit s = true -> forallb isDecDigit tag = false ->
  str_eqb s tag = false.
Proof.
  intros S T. apply str_eqb_neq. intros ->. congruence.
Qed.

(** X24: [getLogs] sends a block given as a number, as its decimal text or
    as any hexadecimal spelling of it, leading zeros and capitals included,
    as one and the same quantity: 0x and the digits of the number without
    leading zeros; an empty text is sent as block 0x0. *)
Theorem blockParam_canonical (h : str) (v : Z) :
  forallb isHexDigit h = true -> parseDigits 16 h = Some v ->
  blockParam (VStr (lit "0x" ++ h)) = Some (lit "0x" ++ toDigits 16 v)
  /\ blockParam (VNum v) = Some (lit "0x" ++ toDigits 16 v)
  /\ blockParam (VStr (toDigits 10 v)) = Some (lit "0x" ++ toDigits 16 v)
  /\ blockParam (VStr []) = Some (lit "0x0").
Proof.
  intros H P. destruct (Fees.parseDigits_nonneg 16 h v ltac:(lia) P) as [_ V].
  assert (B : BigInt_ofString (toDigits 10 v) = Some v).
  { rewrite <- (BigInt_toString_nonneg 10 v V). now apply BigInt_ofString_toString. }
  repeat split.
  - unfold blockParam, decimalToHex.
    change (lit "0x" ++ h) with ("0"%char :: "x"%char :: h) at 1 2 3.
    cbn [strictEqStr str_eqb lit list_ascii_of_string Ascii.eqb Bool.eqb andb orb
         BigInt].
    rewrite BigInt_ofString_0x, P by assumption. cbn [option_map].
    now rewrite BigInt_toString_nonneg.
  - unfold blockParam, decimalToHex. cbn [strictEqStr orb BigInt option_map].
    now rewrite BigInt_toString_nonneg.
  - unfold blockParam, decimalToHex. cbn [strictEqStr BigInt].
    rewrite !(dec_not_tag (toDigits 10 v)) by (try reflexivity; now apply toDigits_dec).
    cbn [orb]. rewrite B. cbn [option_map]. now rewrite BigInt_toString_nonneg.
Qed.

Lemma blockParam_canonical_witness :
  blockParam (VStr (lit "0x" ++ lit "00FF")) = Some (lit "0x" ++ toDigits 16 255).
Proof.
  apply (blockParam_canonical (lit "00FF") 255); reflexivity.
Defined.

End Logs.

(** ** The text decoders of the NFT actions *)

Module Texts.
Import JS Utils Props JSFacts MoreFacts.

(** X25: on a result whose first word reads as 32, the offset of a lone ABI
    string, the name and symbol decode gives what the token-URI decode
    gives, less the null characters. *)
Theorem decodeName_decodeTokenURI (utf8 : list Z -> str) (dflt h : str) :
  128 <= len h -> parseInt16 (slice h 0 64) = Some 32 ->
  Nfts.decodeName utf8 dflt (lit "0x" ++ h)
  = dropNul (Nfts.decodeTokenURI utf8 (lit "0x" ++ h)).
Proof.
  intros L O. assert (G : (128 <=? len h) = true) by lia.
  unfold Nfts.decodeName, Nfts.decodeTokenURI.
  rewrite Strings.guards, replaceFirst_prefix, G, O by assumption.
  cbn [option_map toIndex]. change (32 * 2) with 64. change (64 + 64) with 128.
  destruct (parseInt16 (slice h 64 128)) as [l|]; cbn [option_map toIndex];
    [|reflexivity].
  now replace (64 + 64 + l * 2) with (128 + l * 2) by lia.
Qed.

Lemma decodeName_decodeTokenURI_witness :
  Nfts.decodeName asciiText []
    (lit "0x" ++ word 32 ++ word 3 ++ padEnd 64 "0" (lit "616263"))
  = dropNul (Nfts.decodeTokenURI asciiText
               (lit "0x" ++ word 32 ++ word 3 ++ padEnd 64 "0" (lit "616263"))).
Proof.
  apply (decodeName_decodeTokenURI asciiText []
           (word 32 ++ word 3 ++ padEnd 64 "0" (lit "616263")));
    [apply Z.leb_le; reflexivity|reflexivity].
Defined.

End Texts.

(** ** The item of [getPoolInfo] *)

Module Pools.
Import JS Utils Defi Props JSFacts MoreFacts.

Lemma round_small (z : Z) : 0 <= z < 2 ^ 53 -> roundBinary64 z = z.
Proof.
  intros H. unfold roundBinary64.
  assert (L : Z.log2 z < 53).
  { destruct (Z.eq_dec z 0) as [->|N]; [reflexivity|].
    apply Z.log2_lt_pow2; lia. }
  now replace (Z.log2 z - 52 <=? 0) with true by lia.
Qed.

Lemma round_big (z : Z) : 2 ^ 53 <= z -> 2 ^ 53 <= roundBinary64 z.
Proof.
  intros H. unfold roundBinary64.
  assert (P : 0 < z) by lia.
  assert (L : 53 <= Z.log2 z) by (apply Z.log2_le_pow2; lia).
  replace (Z.log2 z - 52 <=? 0) with false by lia.
  set (e := Z.log2 z - 52).
  assert (E : 2 <= 2 ^ e).
  { change 2 with (2 ^ 1) at 1. apply Z.pow_le_mono_r; lia. }
  assert (Q : 2 ^ 52 <= z / 2 ^ e).
  { apply Z.div_le_lower_bound; [lia|].
    rewrite <- Z.pow_add_r by lia. replace (e + 52) with (Z.log2 z) by lia.
    apply Z.log2_spec. lia. }
  cbv zeta.
  assert (G : forall q', z / 2 ^ e <= q' -> 2 ^ 53 <= q' * 2 ^ e).
  { intros q' Hq. change (2 ^ 53) with (2 ^ 52 * 2). nia. }
  destruct (z mod 2 ^ e <? 2 ^ (e - 1)); [apply G; lia|].
  destruct (2 ^ (e - 1) <? z mod 2 ^ e); [apply G; lia|].
  destruct (Z.even (z / 2 ^ e)); apply G; lia.
Qed.

Lemma decRun_digits (s : str) (acc v : Z) :
  digitsFrom 10 s acc = Some v -> decRun s acc = v.
Proof.
  revert acc. induction s as [|c s IH]; intros acc; cbn [digitsFrom decRun].
  - now intros [= <-].
  - destruct (digitVal 10 c); [apply IH|discriminate].
Qed.

(** [parseInt] on the decimal text of a non-negative integer. *)
Lemma parseInt10_toDigits (n : Z) :
  0 <= n ->
  parseInt10 (toDigits 10 n)
  = if roundBinary64 n <? 2 ^ 1024 then Some (roundBinary64 n) else None.
Proof.
  intros N. pose proof (toDigits_dec n N) as D.
  pose proof (toDigits_value 10 ltac:(lia) ltac:(lia) n N) as V.
  pose proof (toDigits_nonempty 10 n) as NE.
  destruct (toDigits 10 n) as [|c s'] eqn:E; [easy|]. rewrite <- E in *.
  assert (Hc : isDecDigit c = true).
  { rewrite E in D. cbn [forallb] in D. now apply andb_true_iff in D. }
  unfold parseInt10.
  assert (T : trimStart (toDigits 10 n) = toDigits 10 n).
  { rewrite E. apply trimStart_head. now apply isSpace_hex, isDecDigit_isHexDigit. }
  rewrite T. change (lit "-") with ["-"%char]. change (lit "+") with ["+"%char].
  rewrite (startsWith_dec "-" [] _), (startsWith_dec "+" [] _)
    by (reflexivity || assumption).
  cbn [orb].
  assert (S : startsWithDigit 10 (toDigits 10 n) = true).
  { rewrite E. unfold startsWithDigit. unfold isDecDigit in Hc.
    now destruct (digitVal 10 c). }
  now rewrite S, (decRun_digits _ 0 n V).
Qed.

Lemma timeValue_small (t : Z) :
  0 <= t <= 8640000000000 ->
  timeValue (parseInt10 (toDigits 10 t)) = Some (t * 1000).
Proof.
  intros H. rewrite parseInt10_toDigits, (round_small t) by lia.
  replace (t <? 2 ^ 1024) with true by lia.
  unfold timeValue. replace (t <? 0) with false by lia.
  rewrite round_small by lia.
  now replace (Z.abs (t * 1000) <=? 8640000000000000) with true by lia.
Qed.

Lemma timeValue_big (t : Z) :
  8640000000000 < t -> timeValue (parseInt10 (toDigits 10 t)) = None.
Proof.
  intros H. rewrite parseInt10_toDigits by lia.
  destruct (roundBinary64 t <? 2 ^ 1024); [|reflexivity].
  assert (R : 8640000000000 < roundBinary64 t).
  { destruct (Z_lt_le_dec t (2 ^ 53)) as [S|B].
    - rewrite round_small; lia.
    - pose proof (round_big t B). lia. }
  unfold timeValue. replace (roundBinary64 t <? 0) with false by lia.
  assert (Q : 8640000000000000 < roundBinary64 (roundBinary64 t * 1000)).
  { destruct (Z_lt_le_dec (roundBinary64 t * 1000) (2 ^ 53)) as [S|B].
    - rewrite round_small; lia.
    - pose proof (round_big _ B). lia. }
  now replace (Z.abs (roundBinary64 (roundBinary64 t * 1000)) <=? 8640000000000000)
    with false by lia.
Qed.

(** Every result of [decodeAddress] is in lower case, and no key of
    [KNOWN_TOKENS] is. *)
Lemma decodeAddress_lower (hex : str) :
  toLowerCase (decodeAddress hex) = decodeAddress hex.
Proof.
  destruct hex as [|c hex'] eqn:E; [reflexivity|]. rewrite <- E.
  destruct (str_eqb hex (lit "0x")) eqn:X;
    [apply str_eqb_eq in X; rewrite X; reflexivity|].
  assert (D : decodeAddress hex
              = lit "0x" ++ toLowerCase (sliceFrom (replaceFirst (lit "0x") [] hex) (-40))).
  { unfold decodeAddress. rewrite X. clear X. now destruct hex. }
  now rewrite D, Encoding.toLowerCase_0x, toLowerCase_twice.
Qed.

Lemma not_lower (key t : str) :
  toLowerCase key <> key -> toLowerCase t = t -> str_eqb key t = false.
Proof.
  intros K T. apply str_eqb_neq. intros ->. now apply K.
Qed.

Lemma tokenInfoOf_decodeAddress (hex : str) :
  tokenInfoOf (decodeAddress hex)
  = {| name := lit "Unknown"; symbol := lit "UNK"; decimals := 18 |}.
Proof.
  pose proof (decodeAddress_lower hex) as L.
  unfold tokenInfoOf, KNOWN_TOKENS. cbn [find fst].
  now rewrite !(not_lower _ (decodeAddress hex)) by (exact L || (vm_compute; discriminate)).
Qed.

Lemma firstn_word (w r : str) : length w = 64%nat -> firstn 64 (w ++ r) = w.
Proof.
  intros L. rewrite firstn_app, L, Nat.sub_diag, firstn_O, app_nil_r.
  apply firstn_all2. lia.
Qed.

Lemma skipn_word (w r : str) : length w = 64%nat -> skipn 64 (w ++ r) = r.
Proof.
  intros L. rewrite skipn_app, L, Nat.sub_diag, skipn_O.
  now rewrite skipn_all2 by lia.
Qed.

Section PoolInfo.

Variable toISOString : Z -> str.

(** The item, once the three words of the reserves and the supply are
    read. *)
Lemma getPoolInfo_eval (pool r0 r1 R hs : str) (a b t s : Z) :
  isValidAddress pool = true -> 0 <= a -> 0 <= b ->
  forallb isHexDigit hs = true -> parseDigits 16 hs = Some s ->
  hexToDecimal (lit "0x" ++ slice (replaceFirst (lit "0x") [] R) 0 64)
  = Some (toDigits 10 a) ->
  hexToDecimal (lit "0x" ++ slice (replaceFirst (lit "0x") [] R) 64 128)
  = Some (toDigits 10 b) ->
  hexToDecimal (lit "0x" ++ slice (replaceFirst (lit "0x") [] R) 128 192)
  = Some (toDigits 10 t) ->
  getPoolInfo toISOString pool r0 r1 R (lit "0x" ++ hs)
  = option_map
      (fun tv =>
         {| poolAddress := pool;
            token0 := {| address := decodeAddress r0; tokenName := lit "Unknown";
                         tokenSymbol := lit "UNK";
                         reserve := weiToHuman a 18; reserveRaw := toDigits 10 a |};
            token1 := {| address := decodeAddress r1; tokenName := lit "Unknown";
                         tokenSymbol := lit "UNK";
                         reserve := weiToHuman b 18; reserveRaw := toDigits 10 b |};
            totalSupply := weiToHuman s 18;
            totalSupplyRaw := toDigits 10 s;
            lastUpdate := toISOString tv |})
      (timeValue (parseInt10 (toDigits 10 t))).
Proof.
  intros V A B H P Ea Eb Et.
  destruct (Fees.parseDigits_nonneg 16 hs s ltac:(lia) P) as [_ S].
  unfold getPoolInfo. rewrite V. cbn [negb]. rewrite Ea, Eb, Et.
  rewrite (Conversions.hexToDecimal_prefixed hs s H P). cbn [andThen].
  rewrite !tokenInfoOf_decodeAddress. cbn [decimals name symbol].
  unfold CRO_DECIMALS.
  destruct (Units.weiToCro_exact_upto_22 a 18 A ltac:(lia)) as [-> _].
  destruct (Units.weiToCro_exact_upto_22 b 18 B ltac:(lia)) as [-> _].
  destruct (Units.weiToCro_exact_upto_22 s 18 S ltac:(lia)) as [-> _].
  cbn [andThen]. now destruct (timeValue (parseInt10 (toDigits 10 t))).
Qed.

(** X26: with a valid pool address and a total supply given as a
    hexadecimal quantity, from a [getReserves()] result that starts with
    the words of a, b and a time t in seconds: up to t = 8640000000000 the
    item reports the two reserves as the decimal texts of a and b and as
    their amounts at 18 decimals, the supply likewise, and the time of
    t * 1000 milliseconds; beyond, [toISOString] throws and nothing is
    reported.  A result without words gives reserves of 0 at time 0.
    Whatever [token0()] and [token1()] return, the tokens are reported as
    unknown, with 18 decimals: [decodeAddress] gives lower case and the keys
    of [KNOWN_TOKENS] are in mixed case. *)
Theorem getPoolInfo_reserves (pool r0 r1 rest hs : str) (a b t s : Z) :
  isValidAddress pool = true ->
  0 <= a < 2 ^ 256 -> 0 <= b < 2 ^ 256 -> 0 <= t < 2 ^ 256 ->
  forallb isHexDigit hs = true -> parseDigits 16 hs = Some s ->
  (t <= 8640000000000 ->
   exists info,
     getPoolInfo toISOString pool r0 r1
       (lit "0x" ++ word a ++ word b ++ word t ++ rest) (lit "0x" ++ hs) = Some info
     /\ reserveRaw (token0 info) = toDigits 10 a
     /\ reserve (token0 info) = weiToHuman a 18
     /\ reserveRaw (token1 info) = toDigits 10 b
     /\ reserve (token1 info) = weiToHuman b 18
     /\ tokenSymbol (token0 info) = lit "UNK"
     /\ tokenSymbol (token1 info) = lit "UNK"
     /\ totalSupplyRaw info = toDigits 10 s
     /\ totalSupply info = weiToHuman s 18
     /\ lastUpdate info = toISOString (t * 1000))
  /\ (8640000000000 < t ->
      getPoolInfo toISOString pool r0 r1
        (lit "0x" ++ word a ++ word b ++ word t ++ rest) (lit "0x" ++ hs) = None)
  /\ (exists info,
        getPoolInfo toISOString pool r0 r1 (lit "0x") (lit "0x" ++ hs) = Some info
        /\ reserveRaw (token0 info) = lit "0"
        /\ reserveRaw (token1 info) = lit "0"
        /\ tokenSymbol (token0 info) = lit "UNK"
        /\ lastUpdate info = toISOString 0).
Proof.
  intros V A B T H P.
  destruct (Encoding.word_spec a A) as [La _].
  destruct (Encoding.word_spec b B) as [Lb _].
  destruct (Encoding.word_spec t T) as [Lt _].
  assert (La' : length (word a) = 64%nat) by (unfold len in La; lia).
  assert (Lb' : length (word b) = 64%nat) by (unfold len in Lb; lia).
  assert (Lt' : length (word t) = 64%nat) by (unfold len in Lt; lia).
  assert (W : forall n, 0 <= n -> hexToDecimal (lit "0x" ++ word n) = Some (toDigits 10 n))
    by (intros n Hn; exact (RoundTrip.decodeUint256_word n Hn)).
  set (R := lit "0x" ++ word a ++ word b ++ word t ++ rest).
  assert (Ea : hexToDecimal (lit "0x" ++ slice (replaceFirst (lit "0x") [] R) 0 64)
               = Some (toDigits 10 a)).
  { unfold R. rewrite replaceFirst_prefix, slice_nonneg by lia.
    change (Z.to_nat (64 - 0)) with 64%nat. change (Z.to_nat 0) with 0%nat.
    rewrite skipn_O, firstn_word by assumption. apply W; lia. }
  assert (Eb : hexToDecimal (lit "0x" ++ slice (replaceFirst (lit "0x") [] R) 64 128)
               = Some (toDigits 10 b)).
  { unfold R. rewrite replaceFirst_prefix, slice_nonneg by lia.
    change (Z.to_nat (128 - 64)) with 64%nat. change (Z.to_nat 64) with 64%nat.
    rewrite skipn_word, firstn_word by assumption. apply W; lia. }
  assert (Et : hexToDecimal (lit "0x" ++ slice (replaceFirst (lit "0x") [] R) 128 192)
               = Some (toDigits 10 t)).
  { unfold R. rewrite replaceFirst_prefix, slice_nonneg by lia.
    change (Z.to_nat (192 - 128)) with 64%nat.
    change (Z.to_nat 128) with (64 + 64)%nat.
    rewrite <- skipn_skipn, !skipn_word, firstn_word by assumption.
    apply W; lia. }
  pose proof (getPoolInfo_eval pool r0 r1 R hs a b t s V ltac:(lia) ltac:(lia)
                H P Ea Eb Et) as E.
  split; [|split].
  - intros Ht. rewrite E, timeValue_small by lia. cbn [option_map].
    eexists. split; [reflexivity|]. cbn [token0 token1 reserveRaw reserve
      tokenSymbol totalSupplyRaw totalSupply lastUpdate]. repeat split.
  - intros Ht. now rewrite E, timeValue_big.
  - rewrite (getPoolInfo_eval pool r0 r1 (lit "0x") hs 0 0 0 s V)
      by (assumption || lia || reflexivity).
    rewrite timeValue_small by lia. cbn [option_map].
    eexists. split; [reflexivity|]. cbn [token0 token1 reserveRaw
      tokenSymbol lastUpdate]. repeat split.
Qed.

End PoolInfo.

Lemma getPoolInfo_reserves_witness :
  exists info,
    getPoolInfo (BigInt_toString 10)
      (lit "0x3B44B2a187a7b3824131F8db5a74194D0a42Fc15")
      (lit "0x0000000000000000000000005C7F8A570d578ED84E63fdFA7b1eE72dEae1AE23")
      (lit "0x")
      (lit "0x" ++ word 1000 ++ word 2500 ++ word 1700000000 ++ [])
      (lit "0x" ++ lit "64") = Some info
    /\ reserveRaw (token0 info) = toDigits 10 1000
    /\ tokenSymbol (token0 info) = lit "UNK".
Proof.
  destruct (getPoolInfo_reserves (BigInt_toString 10)
              (lit "0x3B44B2a187a7b3824131F8db5a74194D0a42Fc15")
              (lit "0x0000000000000000000000005C7F8A570d578ED84E63fdFA7b1eE72dEae1AE23")
              (lit "0x") [] (lit "64") 1000 2500 1700000000 100)
    as [S _]; try reflexivity;
    try (split; [apply Z.leb_le; reflexivity|reflexivity]).
  destruct S as [info [E [R0 [_ [_ [_ [U _]]]]]]];
    [apply Z.leb_le; reflexivity|].
  exists info. split; [exact E|]. split; [exact R0|exact U].
Defined.

End Pools.

(** ** Signed integers and letter case *)

Module Signs.
Import JS Utils Props JSFacts MoreFacts.

Lemma digitsFrom_stop (radix : Z) (a b : str) (c : ascii) (acc : Z) :
  digitVal radix c = None -> digitsFrom radix (a ++ c :: b) acc = None.
Proof.
  intros C. revert acc. induction a as [|x a IH]; intros acc; cbn [app digitsFrom].
  - now rewrite C.
  - destruct (digitVal radix x); [apply IH|reflexivity].
Qed.

Lemma repeat_noSpace (k : nat) :
  forallb (fun c => negb (isSpace c)) (repeat "0"%char k) = true.
Proof. induction k as [|k IH]; [reflexivity|]. cbn [repeat forallb]. now rewrite IH. Qed.

Lemma hex_noSpace (s : str) :
  forallb isHexDigit s = true -> forallb (fun c => negb (isSpace c)) s = true.
Proof.
  rewrite !forallb_forall. intros H c Hc. now rewrite isSpace_hex by auto.
Qed.

(** X27: a negative int256 is not encoded in two's complement: its word is
    the zero padding, a minus sign and the digits of the absolute value,
    which is no run of hexadecimal digits, and [decodeUint256] throws on
    it. *)
Theorem int256_negative (sel : str) (v : value) (n : Z) :
  BigInt v = Some n -> n < 0 ->
  exists w,
    encodeFunctionCall sel [{| ptype := lit "int256"; pvalue := v |}]
    = Some (sel ++ w)
    /\ w = padStart 64 "0" ("-"%char :: toDigits 16 (- n))
    /\ forallb isHexDigit w = false
    /\ decodeUint256 (lit "0x" ++ w) = None.
Proof.
  intros B N. exists (padStart 64 "0" ("-"%char :: toDigits 16 (- n))).
  assert (H : forallb isHexDigit (toDigits 16 (- n)) = true)
    by (apply toDigits_hex; lia).
  split; [|split; [reflexivity|split]].
  - unfold encodeFunctionCall. cbn [Utils.encodeLoop]. unfold Utils.encodeParam.
    cbn [ptype pvalue].
    change (str_eqb (lit "int256") (lit "address")) with false.
    change (str_eqb (lit "int256") (lit "uint256")) with false.
    change (str_eqb (lit "int256") (lit "uint")) with false.
    change (str_eqb (lit "int256") (lit "int256")) with true.
    cbn [orb]. unfold padNumber. rewrite B. cbn [option_map].
    rewrite Encoding.sliceFrom_0x. unfold BigInt_toString.
    now replace (n <? 0) with true by lia.
  - unfold padStart. rewrite forallb_app, Encoding.repeat_hex. reflexivity.
  - change decodeUint256 with hexToDecimal.
    rewrite Conversions.hexToDecimal_0x
      by (unfold padStart; intros C; apply app_eq_nil in C; now destruct C).
    unfold BigInt_ofString. rewrite trim_noSpace.
    + rewrite startsWith_app. cbn [orb].
      change (skipn 2 (lit "0x" ++ ?x)) with x.
      change (lit "0x" ++ padStart 64 "0" ("-"%char :: toDigits 16 (- n)))
        with ("0"%char :: "x"%char :: padStart 64 "0" ("-"%char :: toDigits 16 (- n))).
      cbn [skipn]. unfold parseDigits, padStart.
      rewrite digitsFrom_stop by reflexivity.
      now destruct (repeat "0"%char _ ++ _).
    + unfold padStart. rewrite !forallb_app, repeat_noSpace.
      cbn [forallb lit list_ascii_of_string]. now rewrite hex_noSpace.
Qed.

Lemma int256_negative_witness :
  exists w,
    encodeFunctionCall (lit "0x12345678")
      [{| ptype := lit "int256"; pvalue := VStr (lit "-5") |}]
    = Some (lit "0x12345678" ++ w)
    /\ decodeUint256 (lit "0x" ++ w) = None.
Proof.
  destruct (int256_negative (lit "0x12345678") (VStr (lit "-5")) (-5))
    as [w [E [_ [_ D]]]]; [reflexivity|reflexivity|].
  exists w. split; [exact E|exact D].
Defined.

(** X28: address validation looks at the shape alone, two characters 0x and
    forty hexadecimal digits of either case, with no checksum: the lower
    case of a valid address is valid, and no text is both a valid address
    and a valid transaction hash. *)
Theorem isValidAddress_case (a : str) :
  isValidAddress a = true ->
  isValidAddress (toLowerCase a) = true /\ len a = 42 /\ isValidTxHash a = false.
Proof.
  intros V. destruct (Encoding.isValidAddress_split a V) as [h [-> [L H]]].
  assert (L2 : len (lit "0x" ++ h) = 42)
    by (rewrite len_app; change (len (lit "0x")) with 2; lia).
  split; [|split; [exact L2|]].
  - rewrite Encoding.toLowerCase_0x. unfold isValidAddress, isPrefixedHex.
    rewrite startsWith_app, len_app, Encoding.len_toLowerCase.
    change (len (lit "0x")) with 2.
    change (skipn 2 (lit "0x" ++ toLowerCase h)) with (toLowerCase h).
    rewrite toLowerCase_hex by assumption.
    now replace (2 + len h =? 40 + 2) with true by lia.
  - unfold isValidTxHash, isPrefixedHex. rewrite L2.
    change (42 =? 64 + 2) with false. now rewrite andb_false_r.
Qed.

Lemma isValidAddress_case_witness :
  isValidAddress (toLowerCase (lit "0x5C7F8A570d578ED84E63fdFA7b1eE72dEae1AE23"))
  = true.
Proof.
  apply (isValidAddress_case (lit "0x5C7F8A570d578ED84E63fdFA7b1eE72dEae1AE23")).
  reflexivity.
Defined.

End Signs.

(** ** Dynamic types in the [encodeFunction] action *)

Module Dynamic.
Import JS Utils Props JSFacts.


End Dynamic.
